(** * The CSS selector builder of 05-objects-tasks.js

    A shallow embedding of [cssSelectorBuilder]: one shared, mutable object
    whose methods append selector fragments, flush finished selectors into a
    list, and finally render a string.  Every method returns [this], so a
    chain of calls is a sequence of state updates on the same object; a
    [throw] leaves the object in whatever state the method reached. *)

From Stdlib Require Import String Ascii List Bool Arith Lia.
Import ListNotations.
Open Scope string_scope.

(** ** JavaScript values and strings *)

(** The values that reach the builder: strings, [undefined] (a missing
    argument, an absent property, an index out of range) and references to
    objects (each method returns the builder itself).  A string is a
    sequence of code units; [String.length] is its [.length]. *)
Inductive jsval : Type :=
  | JUndefined
  | JString (s : string)
  | JObject.

(** ToBoolean on a string: only the empty string is falsy. *)
Definition truthy (s : string) : bool :=
  match s with
  | EmptyString => false
  | String _ _ => true
  end.

Definition truthy_val (v : jsval) : bool :=
  match v with
  | JUndefined => false
  | JString s => truthy s
  | JObject => true
  end.

(** What [Array.prototype.join] prints for one element: [undefined] gives
    the empty string, a plain object gives its default [toString]. *)
Definition join_item (v : jsval) : string :=
  match v with
  | JUndefined => ""
  | JString s => s
  | JObject => "[object Object]"
  end.

Fixpoint join (sep : string) (l : list jsval) : string :=
  match l with
  | [] => ""
  | [x] => join_item x
  | x :: xs => join_item x ++ sep ++ join sep xs
  end.

(** [arr.flatMap((item, index) => ...)] where the callback returns a list
    (a non-array result counts as a one-element list). *)
Fixpoint flatMap_from {A B : Type} (f : A -> nat -> list B) (index : nat)
    (l : list A) : list B :=
  match l with
  | [] => []
  | item :: rest => f item index ++ flatMap_from f (S index) rest
  end.

Definition flatMap {A B : Type} (f : A -> nat -> list B) (l : list A) : list B :=
  flatMap_from f 0 l.

(** ** The object *)

Module SelectObj.

Record t : Type := mk {
  tag : string;
  id : string;
  class : string;
  attr : string;
  pseudoClass : string;
  pseudoElement : string;
  seq : string;
  prevElem : string
}.

Definition initial : t := mk "" "" "" "" "" "" "" "".

Definition set_tag (v : string) (o : t) : t :=
  mk v (id o) (class o) (attr o) (pseudoClass o) (pseudoElement o) (seq o) (prevElem o).
Definition set_id (v : string) (o : t) : t :=
  mk (tag o) v (class o) (attr o) (pseudoClass o) (pseudoElement o) (seq o) (prevElem o).
Definition set_class (v : string) (o : t) : t :=
  mk (tag o) (id o) v (attr o) (pseudoClass o) (pseudoElement o) (seq o) (prevElem o).
Definition set_attr (v : string) (o : t) : t :=
  mk (tag o) (id o) (class o) v (pseudoClass o) (pseudoElement o) (seq o) (prevElem o).
Definition set_pseudoClass (v : string) (o : t) : t :=
  mk (tag o) (id o) (class o) (attr o) v (pseudoElement o) (seq o) (prevElem o).
Definition set_pseudoElement (v : string) (o : t) : t :=
  mk (tag o) (id o) (class o) (attr o) (pseudoClass o) v (seq o) (prevElem o).
Definition set_seq (v : string) (o : t) : t :=
  mk (tag o) (id o) (class o) (attr o) (pseudoClass o) (pseudoElement o) v (prevElem o).
Definition set_prevElem (v : string) (o : t) : t :=
  mk (tag o) (id o) (class o) (attr o) (pseudoClass o) (pseudoElement o) (seq o) v.

End SelectObj.

Record Builder : Type := mkBuilder {
  selectObj : SelectObj.t;
  combo : list string;
  comboSeparators : list jsval;
  firstMode : bool;
  firstId : bool
}.

(** The object literal as written in the source. *)
Definition fresh : Builder := mkBuilder SelectObj.initial [] [] true false.

Definition upd_selectObj (f : SelectObj.t -> SelectObj.t) (b : Builder) : Builder :=
  mkBuilder (f (selectObj b)) (combo b) (comboSeparators b) (firstMode b) (firstId b).
Definition set_combo (v : list string) (b : Builder) : Builder :=
  mkBuilder (selectObj b) v (comboSeparators b) (firstMode b) (firstId b).
Definition set_comboSeparators (v : list jsval) (b : Builder) : Builder :=
  mkBuilder (selectObj b) (combo b) v (firstMode b) (firstId b).
Definition set_firstMode (v : bool) (b : Builder) : Builder :=
  mkBuilder (selectObj b) (combo b) (comboSeparators b) v (firstId b).
Definition set_firstId (v : bool) (b : Builder) : Builder :=
  mkBuilder (selectObj b) (combo b) (comboSeparators b) (firstMode b) v.

(** [this.prevElem] (not [this.selectObj.prevElem]): the object has no such
    property and nothing in the file creates one, so the read is
    [undefined]. *)
Definition own_prevElem (b : Builder) : jsval := JUndefined.

Module errors.
Definition order : string :=
  "Selector parts should be arranged in the following order: element, id, class, attribute, pseudo-class, pseudo-element".
Definition moreThanOne : string :=
  "Element, id and pseudo-element should not occur more then one time inside the selector".
End errors.

(** ** Statements on the shared object *)

(** A method body either completes with a value or throws a message; in
    both cases the object keeps the mutations made so far. *)
Inductive Completion (A : Type) : Type :=
  | Normal (a : A) (this : Builder)
  | Thrown (message : string) (this : Builder).
Arguments Normal {A} a this.
Arguments Thrown {A} message this.

Definition M (A : Type) : Type := Builder -> Completion A.

Definition ret {A : Type} (a : A) : M A := fun this => Normal a this.

Definition bind {A B : Type} (m : M A) (k : A -> M B) : M B :=
  fun this =>
    match m this with
    | Normal a this' => k a this'
    | Thrown e this' => Thrown e this'
    end.

Definition get : M Builder := fun this => Normal this this.
Definition modify (f : Builder -> Builder) : M unit := fun this => Normal tt (f this).
Definition throw {A : Type} (message : string) : M A := fun this => Thrown message this.
Definition when (c : bool) (m : M unit) : M unit := if c then m else ret tt.

Declare Scope js_scope.
Delimit Scope js_scope with js.
Notation "x <- m ;; k" := (bind m (fun x => k))
  (at level 61, m at next level, right associativity) : js_scope.
Notation "m ;; k" := (bind m (fun _ => k))
  (at level 61, right associativity) : js_scope.
Open Scope js_scope.

(** The final object and the outcome, with the returned value dropped. *)
Definition state_of {A : Type} (c : Completion A) : Builder :=
  match c with
  | Normal _ this => this
  | Thrown _ this => this
  end.

Module cssSelectorBuilder.

Definition cleanSelector : M unit :=
  modify (upd_selectObj (fun _ => SelectObj.initial)).

Definition genSelector : M string :=
  this <- get ;;
  let result := SelectObj.seq (selectObj this) in
  cleanSelector ;;
  modify (upd_selectObj (SelectObj.set_prevElem result)) ;;
  ret result.

Definition writeCombo : M unit :=
  this <- get ;;
  if truthy (SelectObj.prevElem (selectObj this)) then
    modify (set_combo (combo this ++ [SelectObj.prevElem (selectObj this)])) ;;
    modify (upd_selectObj (SelectObj.set_prevElem ""))
  else
    modify (set_combo (combo this ++ [SelectObj.seq (selectObj this)])).

Definition genError {A : Type} (message : string) : M A :=
  cleanSelector ;;
  modify (upd_selectObj (SelectObj.set_prevElem "")) ;;
  modify (set_firstMode true) ;;
  modify (set_firstId false) ;;
  throw message.

Definition element (tag : string) : M unit :=
  this <- get ;;
  when (truthy (SelectObj.seq (selectObj this)) && negb (firstMode this))
    (genSelector ;; writeCombo ;; modify (set_firstMode true)) ;;
  this <- get ;;
  when (firstId this) (genError errors.order) ;;
  this <- get ;;
  when (truthy (SelectObj.tag (selectObj this)) && firstMode this)
    (genError errors.moreThanOne) ;;
  modify (upd_selectObj (SelectObj.set_tag tag)) ;;
  modify (upd_selectObj (SelectObj.set_seq tag)).

Definition id (_id : string) : M unit :=
  this <- get ;;
  when (truthy_val (own_prevElem this)) writeCombo ;;
  this <- get ;;
  when (truthy (SelectObj.id (selectObj this))) (genError errors.moreThanOne) ;;
  this <- get ;;
  when (truthy (SelectObj.class (selectObj this))
        || truthy (SelectObj.pseudoElement (selectObj this)))
    (genError errors.order) ;;
  this <- get ;;
  when (truthy (SelectObj.tag (selectObj this))
        && (String.length (SelectObj.tag (selectObj this))
            <? String.length (SelectObj.seq (selectObj this)))%nat)
    (genError errors.order) ;;
  modify (upd_selectObj (SelectObj.set_id ("#" ++ _id))) ;;
  this <- get ;;
  when (SelectObj.seq (selectObj this) =? "") (modify (set_firstId true)) ;;
  modify (upd_selectObj (fun o => SelectObj.set_seq (SelectObj.seq o ++ "#" ++ _id) o)) ;;
  modify (set_firstMode false).

Definition class (_class : string) : M unit :=
  this <- get ;;
  when (truthy (SelectObj.attr (selectObj this))) (throw errors.order) ;;
  modify (upd_selectObj (SelectObj.set_class ("." ++ _class))) ;;
  modify (upd_selectObj (fun o => SelectObj.set_seq (SelectObj.seq o ++ "." ++ _class) o)) ;;
  modify (set_firstMode false) ;;
  modify (set_firstId false).

Definition attr (_attr : string) : M unit :=
  this <- get ;;
  when (truthy (SelectObj.pseudoClass (selectObj this))) (genError errors.order) ;;
  modify (upd_selectObj (SelectObj.set_attr ("[" ++ _attr ++ "]"))) ;;
  modify (upd_selectObj (fun o => SelectObj.set_seq (SelectObj.seq o ++ "[" ++ _attr ++ "]") o)) ;;
  modify (set_firstMode false) ;;
  modify (set_firstId false).

Definition pseudoClass (_pseudoClass : string) : M unit :=
  this <- get ;;
  when (truthy (SelectObj.pseudoElement (selectObj this))) (genError errors.order) ;;
  modify (upd_selectObj (SelectObj.set_pseudoClass (":" ++ _pseudoClass))) ;;
  modify (upd_selectObj (fun o => SelectObj.set_seq (SelectObj.seq o ++ ":" ++ _pseudoClass) o)) ;;
  modify (set_firstMode false) ;;
  modify (set_firstId false).

Definition pseudoElement (_pseudoElement : string) : M unit :=
  this <- get ;;
  when (truthy (SelectObj.pseudoElement (selectObj this))) (genError errors.moreThanOne) ;;
  modify (upd_selectObj (SelectObj.set_pseudoElement ("::" ++ _pseudoElement))) ;;
  modify (upd_selectObj (fun o => SelectObj.set_seq (SelectObj.seq o ++ "::" ++ _pseudoElement) o)) ;;
  modify (set_firstMode false) ;;
  modify (set_firstId false).

(** [combine(...args)]: only [args[1]] is read. *)
Definition combine (args : list jsval) : M unit :=
  this <- get ;;
  when (truthy (SelectObj.seq (selectObj this))) (genSelector ;; writeCombo) ;;
  modify (fun b => set_comboSeparators (comboSeparators b ++ [nth 1 args JUndefined]) b).

(** In the first branch [combo] is not empty, so [combo.length - 1] is the
    natural-number predecessor. *)
Definition stringify : M string :=
  this <- get ;;
  if (0 <? length (combo this))%nat then
    modify (fun b => set_comboSeparators (rev (comboSeparators b)) b) ;;
    this <- get ;;
    let result :=
      join " "
        (flatMap
           (fun item index =>
              if (index <? length (combo this) - 1)%nat
              then [JString item; nth index (comboSeparators this) JUndefined]
              else [JString item])
           (combo this)) in
    modify (set_comboSeparators []) ;;
    modify (set_combo []) ;;
    modify (set_firstMode true) ;;
    modify (set_firstId false) ;;
    ret result
  else
    result <- genSelector ;;
    modify (upd_selectObj (SelectObj.set_prevElem "")) ;;
    modify (set_firstMode true) ;;
    modify (set_firstId false) ;;
    ret result.

End cssSelectorBuilder.

(** ** Call chains and selector expressions *)

(** One fragment call of a chain such as [builder.element('a').id('b')]. *)
Inductive Call : Type :=
  | Element (value : string)
  | Id (value : string)
  | Class (value : string)
  | Attr (value : string)
  | PseudoClass (value : string)
  | PseudoElement (value : string).

Definition call (c : Call) : M unit :=
  match c with
  | Element v => cssSelectorBuilder.element v
  | Id v => cssSelectorBuilder.id v
  | Class v => cssSelectorBuilder.class v
  | Attr v => cssSelectorBuilder.attr v
  | PseudoClass v => cssSelectorBuilder.pseudoClass v
  | PseudoElement v => cssSelectorBuilder.pseudoElement v
  end.

(** The calls of a chain run left to right on the one builder. *)
Fixpoint chain (cs : list Call) : M unit :=
  match cs with
  | [] => ret tt
  | c :: rest => call c ;; chain rest
  end.

(** A selector expression as the callers write it: a chain, or
    [builder.combine(l, combinator, r)].  JavaScript evaluates the argument
    expressions left to right, each on the shared builder, and only then
    calls [combine]; every expression evaluates to the builder itself. *)
Inductive Selector : Type :=
  | Simple (cs : list Call)
  | Combine (l : Selector) (combinator : jsval) (r : Selector).

Fixpoint build (e : Selector) : M jsval :=
  match e with
  | Simple cs => chain cs ;; ret JObject
  | Combine l combinator r =>
      vl <- build l ;;
      vr <- build r ;;
      cssSelectorBuilder.combine [vl; combinator; vr] ;;
      ret JObject
  end.

Definition stringify_of (e : Selector) : M string :=
  build e ;; cssSelectorBuilder.stringify.

(** ** What the specification expects *)

(** The text of one fragment with its prefix, as the specification lists
    them. *)
Definition fragment (c : Call) : string :=
  match c with
  | Element v => v
  | Id v => "#" ++ v
  | Class v => "." ++ v
  | Attr v => "[" ++ v ++ "]"
  | PseudoClass v => ":" ++ v
  | PseudoElement v => "::" ++ v
  end.

Fixpoint expected_text (cs : list Call) : string :=
  match cs with
  | [] => ""
  | c :: rest => fragment c ++ expected_text rest
  end.

(** Position of a category in the order element, id, class, attribute,
    pseudo-class, pseudo-element. *)
Definition rank (c : Call) : nat :=
  match c with
  | Element _ => 1
  | Id _ => 2
  | Class _ => 3
  | Attr _ => 4
  | PseudoClass _ => 5
  | PseudoElement _ => 6
  end.

Definition repeatable (c : Call) : bool :=
  match c with
  | Class _ | Attr _ | PseudoClass _ => true
  | _ => false
  end.

Definition is_element (c : Call) : bool :=
  match c with
  | Element _ => true
  | _ => false
  end.

(** [ordered_after r cs]: the categories of [cs] never go back, starting
    from position [r], and element, id and pseudo-element occur once. *)
Fixpoint ordered_after (r : nat) (cs : list Call) : bool :=
  match cs with
  | [] => true
  | c :: rest =>
      (if repeatable c then r <=? rank c else r <? rank c)%nat
      && ordered_after (rank c) rest
  end.

Definition valid_order (cs : list Call) : bool := ordered_after 0 cs.

Fixpoint last_rank (r : nat) (cs : list Call) : nat :=
  match cs with
  | [] => r
  | c :: rest => last_rank (rank c) rest
  end.

(** The tag a chain leaves behind: the value of its last element call. *)
Fixpoint last_tag (tg : string) (cs : list Call) : string :=
  match cs with
  | [] => tg
  | Element v :: rest => last_tag v rest
  | _ :: rest => last_tag tg rest
  end.

(** What [genError] leaves of a builder: the two lists survive. *)
Definition after_genError (b : Builder) : Builder :=
  mkBuilder SelectObj.initial (combo b) (comboSeparators b) true false.

(** ** The state while one valid chain is being built *)

(** [Building co se tg r s b]: [b] holds a simple selector whose text so
    far is [s], whose last category is [r] (0 when nothing was added) and
    whose tag is [tg], beside the lists [co] and [se]. *)
Record Building (co : list string) (se : list jsval) (tg : string) (r : nat)
    (s : string) (b : Builder) : Prop := {
  bd_combo : combo b = co;
  bd_seps : comboSeparators b = se;
  bd_seq : SelectObj.seq (selectObj b) = s;
  bd_tag : SelectObj.tag (selectObj b) = tg;
  bd_prev : SelectObj.prevElem (selectObj b) = "";
  bd_start : r = 0 -> s = "";
  bd_head : r <= 1 -> s = tg /\ SelectObj.id (selectObj b) = "" /\ firstId b = false;
  bd_class : r <= 2 -> SelectObj.class (selectObj b) = "";
  bd_attr : r <= 3 -> SelectObj.attr (selectObj b) = "";
  bd_pseudoClass : r <= 4 -> SelectObj.pseudoClass (selectObj b) = "";
  bd_pseudoElement : r <= 5 -> SelectObj.pseudoElement (selectObj b) = "";
  bd_mode : 2 <= r -> firstMode b = false;
  bd_firstId : 2 <= r -> (3 <= r \/ truthy tg = true) -> firstId b = false;
  bd_text : 2 <= r -> truthy s = true
}.

(** A chain after which an [element] call starts the next selector: its
    last call is a class, attribute, pseudo-class or pseudo-element, or it
    ends with an id that follows an element with a non-empty tag. *)
Definition complete (a : list Call) : bool :=
  (3 <=? last_rank 0 a)%nat
  || ((2 <=? last_rank 0 a)%nat && truthy (last_tag "" a)).

(** A chain that opens with an [element] call and has a non-empty text. *)
Definition starts_new (b : list Call) : bool :=
  match b with
  | Element _ :: _ => truthy (expected_text b)
  | _ => false
  end.

(** The statement of the specification about [combine] on two chains:
    whatever the chains render to on their own, the combination renders to
    the two texts around the combinator between single spaces. *)
Definition combine_joins (a : list Call) (c : string) (b : list Call) : Prop :=
  forall sa sb ba bb,
    stringify_of (Simple a) fresh = Normal sa ba ->
    stringify_of (Simple b) fresh = Normal sb bb ->
    exists b',
      stringify_of (Combine (Simple a) (JString c) (Simple b)) fresh
      = Normal (sa ++ " " ++ c ++ " " ++ sb) b'.

(** [added c b]: the slot of [c]'s category in [selectObj] is set, which is
    how the methods ask whether such a fragment was already added. *)
Definition added (c : Call) (b : Builder) : bool :=
  match c with
  | Element _ => truthy (SelectObj.tag (selectObj b))
  | Id _ => truthy (SelectObj.id (selectObj b))
  | Class _ => truthy (SelectObj.class (selectObj b))
  | Attr _ => truthy (SelectObj.attr (selectObj b))
  | PseudoClass _ => truthy (SelectObj.pseudoClass (selectObj b))
  | PseudoElement _ => truthy (SelectObj.pseudoElement (selectObj b))
  end.

(** The guard of the first [if] of [element], together with a clear
    [firstId]: the next [element] call starts a new selector. *)
Definition finished (b : Builder) : bool :=
  truthy (SelectObj.seq (selectObj b)) && negb (firstMode b) && negb (firstId b).

(** The builder an [element] call leaves when it starts a new selector. *)
Definition next_selector (v : string) (b : Builder) : Builder :=
  mkBuilder (SelectObj.mk v "" "" "" "" "" v "")
    (combo b ++ [SelectObj.seq (selectObj b)]) (comboSeparators b) true false.

Definition no_element (cs : list Call) : bool :=
  forallb (fun c => negb (is_element c)) cs.

(** [raises m b msg]: running [m] on [b] ends in [throw new Error(msg)]. *)
Definition raises {A : Type} (m : M A) (b : Builder) (msg : string) : Prop :=
  exists b', m b = Thrown msg b'.

(** Holds on a fresh builder and after every call that returns: an empty
    sequence is only met in first mode. *)
Definition first_when_empty (b : Builder) : bool :=
  truthy (SelectObj.seq (selectObj b)) || firstMode b.

(** ** Texts, combinators and sessions *)

(** Texts joined by single spaces, the i-th value of [ss] standing after the
    i-th text; a missing value prints as [undefined] does in [join], values
    beyond the last gap are not used. *)
Fixpoint interleave (ts : list string) (ss : list jsval) : string :=
  match ts with
  | [] => ""
  | [t] => t
  | t :: rest =>
      t ++ " " ++ join_item (hd JUndefined ss) ++ " " ++ interleave rest (tl ss)
  end.

(** The texts of the chains of an expression, left to right. *)
Fixpoint texts (e : Selector) : list string :=
  match e with
  | Simple cs => [expected_text cs]
  | Combine l _ r => texts l ++ texts r
  end.

(** The combinators of an expression in the order of the [combine] calls:
    both operands are evaluated before the call that joins them. *)
Fixpoint combinators (e : Selector) : list jsval :=
  match e with
  | Simple _ => []
  | Combine l c r => combinators l ++ combinators r ++ [c]
  end.

(** A chain that leaves [firstId] clear: it does not end with an id that
    met an empty sequence. *)
Definition closes (a : list Call) : bool :=
  negb (last_rank 0 a =? 2)%nat || truthy (last_tag "" a).

(** The chains of an expression the builder can tell apart: each is in
    valid order, opens with an element call and has a non-empty text; a left
    operand, which the next element call has to close, is [complete]; a
    right operand, which [combine] closes, leaves [firstId] clear. *)
Fixpoint operands_ok (right : bool) (e : Selector) : bool :=
  match e with
  | Simple cs =>
      valid_order cs && starts_new cs && (if right then closes cs else complete cs)
  | Combine l _ r => operands_ok false l && operands_ok true r
  end.

(** [builder.combine(a, c1, builder.combine(b, c2, ...))]. *)
Fixpoint right_nested (a : list Call) (rest : list (jsval * list Call)) : Selector :=
  match rest with
  | [] => Simple a
  | (c, b) :: rest' => Combine (Simple a) c (right_nested b rest')
  end.

(** The texts and combinators of a right-nested expression as written. *)
Fixpoint written (a : list Call) (rest : list (jsval * list Call)) : string :=
  match rest with
  | [] => expected_text a
  | (c, b) :: rest' =>
      expected_text a ++ " " ++ join_item c ++ " " ++ written b rest'
  end.

(** A builder with nothing under construction, and one whose sequence [t]
    waits to be stored. *)
Definition Idle (co : list string) (se : list jsval) (b : Builder) : Prop :=
  selectObj b = SelectObj.initial /\ combo b = co /\ comboSeparators b = se
  /\ firstId b = false.

Definition Pending (co : list string) (se : list jsval) (t : string)
    (fin : bool) (b : Builder) : Prop :=
  combo b = co /\ comboSeparators b = se
  /\ SelectObj.seq (selectObj b) = t /\ truthy t = true
  /\ firstId b = false /\ (fin = true -> firstMode b = false).

Definition waiting (pend : option string) : list string :=
  match pend with
  | None => []
  | Some t => [t]
  end.

Definition At (co : list string) (se : list jsval) (pend : option string)
    (b : Builder) : Prop :=
  match pend with
  | None => Idle co se b
  | Some t => Pending co se t true b
  end.

(** One use of the builder by a caller that catches whatever is thrown and
    goes on with the same object. *)
Inductive Op : Type :=
  | Frag (c : Call)
  | Comb (args : list jsval)
  | Str.

Definition perform (o : Op) (b : Builder) : Builder :=
  match o with
  | Frag c => state_of (call c b)
  | Comb args => state_of (cssSelectorBuilder.combine args b)
  | Str => state_of (cssSelectorBuilder.stringify b)
  end.

Definition session (ops : list Op) (b : Builder) : Builder :=
  fold_left (fun b o => perform o b) ops b.

(** What every state of a session satisfies. *)
Definition sound (b : Builder) : Prop :=
  SelectObj.prevElem (selectObj b) = ""
  /\ Forall (fun t => truthy t = true) (combo b)
  /\ exists rest,
       SelectObj.seq (selectObj b) = SelectObj.tag (selectObj b) ++ rest.

(** The builder right after [element(t)] on a fresh one; [started ""] is
    the fresh builder itself. *)
Definition started (t : string) : Builder :=
  mkBuilder (SelectObj.mk t "" "" "" "" "" t "") [] [] true false.

Definition returns_normally {A : Type} (c : Completion A) : bool :=
  match c with
  | Normal _ _ => true
  | Thrown _ _ => false
  end.

(** [occurs k seen]: a call of the category at position [k] is among
    [seen]. *)
Definition occurs (k : nat) (seen : list Call) : bool :=
  existsb (fun c => (rank c =? k)%nat) seen.

(** The guards of the fragment methods, read as conditions on the calls
    made since [element(t)] (or since the start, with [t] empty). *)
Definition accepted_next (t : string) (seen : list Call) (c : Call) : bool :=
  match c with
  | Element _ => false
  | Id _ =>
      negb (occurs 2 seen) && negb (occurs 3 seen || occurs 6 seen)
      && negb (truthy t && match seen with [] => false | _ => true end)
  | Class _ => negb (occurs 4 seen)
  | Attr _ => negb (occurs 5 seen)
  | PseudoClass _ => negb (occurs 6 seen)
  | PseudoElement _ => negb (occurs 6 seen)
  end.

Fixpoint accepted_after (t : string) (seen : list Call) (cs : list Call) : bool :=
  match cs with
  | [] => true
  | c :: rest => accepted_next t seen c && accepted_after t (c :: seen) rest
  end.

(** [Seen t seen b]: [b] is what the calls [seen], none of them
    [element], leave behind a tag [t]; each slot tells whether its category
    occurred. *)
Definition Seen (t : string) (seen : list Call) (b : Builder) : Prop :=
  SelectObj.tag (selectObj b) = t
  /\ (exists rest,
        SelectObj.seq (selectObj b) = t ++ rest
        /\ truthy rest = match seen with [] => false | _ => true end)
  /\ truthy (SelectObj.id (selectObj b)) = occurs 2 seen
  /\ truthy (SelectObj.class (selectObj b)) = occurs 3 seen
  /\ truthy (SelectObj.attr (selectObj b)) = occurs 4 seen
  /\ truthy (SelectObj.pseudoClass (selectObj b)) = occurs 5 seen
  /\ truthy (SelectObj.pseudoElement (selectObj b)) = occurs 6 seen.

(** Several expressions, each ended by [stringify()], one after the other
    on the same builder. *)
Fixpoint stringify_each (es : list Selector) : M (list string) :=
  match es with
  | [] => ret []
  | e :: rest =>
      s <- stringify_of e ;;
      ss <- stringify_each rest ;;
      ret (s :: ss)
  end.

(** ** Proof steps *)

(** Runs a method body on a builder whose fields are known. *)
Ltac run_body :=
  unfold call, cssSelectorBuilder.element, cssSelectorBuilder.id,
    cssSelectorBuilder.class, cssSelectorBuilder.attr,
    cssSelectorBuilder.pseudoClass, cssSelectorBuilder.pseudoElement,
    cssSelectorBuilder.combine, cssSelectorBuilder.stringify,
    cssSelectorBuilder.genError, cssSelectorBuilder.genSelector,
    cssSelectorBuilder.writeCombo, cssSelectorBuilder.cleanSelector,
    bind, when, get, modify, ret, throw, own_prevElem;
  cbn -[Nat.ltb].

(** Splits on the guards of a method body and reads off the builder it
    returns. *)
Ltac by_guards :=
  run_body;
  repeat match goal with
         | |- context [if ?g then _ else _] => destruct g eqn:?
         end;
  cbn; intros; try discriminate;
  repeat match goal with
         | H : Normal _ _ = Normal _ _ |- _ => inversion H; subst; clear H
         end;
  cbn in *; auto.

(** ** The documented examples *)

Example documented_chain :
  (chain [Id "main"; Class "container"; Class "editable"] ;;
   cssSelectorBuilder.stringify) fresh
  = Normal "#main.container.editable" fresh.
Proof. reflexivity. Qed.

Example documented_nested_combine :
  stringify_of
    (Combine
       (Simple [Element "div"; Id "main"; Class "container"; Class "draggable"])
       (JString "+")
       (Combine
          (Simple [Element "table"; Id "data"])
          (JString "~")
          (Combine
             (Simple [Element "tr"; PseudoClass "nth-of-type(even)"])
             (JString " ")
             (Simple [Element "td"; PseudoClass "nth-of-type(even)"]))))
    fresh
  = Normal
      "div#main.container.draggable + table#data ~ tr:nth-of-type(even)   td:nth-of-type(even)"
      fresh.
Proof. reflexivity. Qed.

(** ** Basic facts *)

Lemma truthy_append_r (s t : string) : truthy t = true -> truthy (s ++ t) = true.
Proof. destruct s; simpl; auto. Qed.

Lemma append_empty_r (s : string) : s ++ "" = s.
Proof. induction s; simpl; congruence. Qed.

Lemma append_assoc (s t u : string) : (s ++ t) ++ u = s ++ t ++ u.
Proof. induction s; simpl; congruence. Qed.

Lemma chain_app (cs ds : list Call) (b : Builder) :
  chain (cs ++ ds) b = (chain cs ;; chain ds) b.
Proof.
  revert b; induction cs as [|c cs IH]; intros b; simpl.
  - reflexivity.
  - unfold bind in *. destruct (call c b) as [[] b'|e b']; [apply IH | reflexivity].
Qed.

Lemma Building_start (co : list string) (se : list jsval) (mode : bool) :
  Building co se "" 0 "" (mkBuilder SelectObj.initial co se mode false).
Proof. constructor; simpl; auto; intros; lia. Qed.

(** Closes a goal that exhibits the builder a call returns and checks that
    it is still being built. *)
Ltac built :=
  eexists; split; [reflexivity|];
  constructor; cbn; intros;
  first
    [ lia
    | solve [auto]
    | match goal with
      | H : _ |- _ => solve [apply H; try lia; intuition (discriminate || lia)]
      end
    | solve [intuition (discriminate || lia)]
    | solve [apply truthy_append_r; reflexivity] ].

Lemma may_follow_spec (r : nat) (c : Call) :
  (if repeatable c then r <=? rank c else r <? rank c)%nat = true ->
  r <= rank c /\ (repeatable c = false -> r < rank c).
Proof.
  destruct (repeatable c); intros H.
  - apply Nat.leb_le in H. split; [lia | discriminate].
  - apply Nat.ltb_lt in H. split; [lia | auto].
Qed.

Lemma call_Building {co : list string} {se : list jsval} {tg : string} {r : nat}
    {s : string} {b : Builder} (c : Call) :
  Building co se tg r s b ->
  (if repeatable c then r <=? rank c else r <? rank c)%nat = true ->
  exists b', call c b = Normal tt b'
             /\ Building co se (last_tag tg [c]) (rank c) (s ++ fragment c) b'.
Proof.
  intros [Hco Hse Hseq Htag Hprev Hstart Hhead Hcl Hat Hpc Hpe Hmode Hfid Htext] Hr.
  apply may_follow_spec in Hr. destruct Hr as [Hle Hlt].
  destruct b as [[tag id cl at' pc pe sq pv] co' se' fm fi]; cbn in *.
  destruct c; cbn in Hle, Hlt.
  - specialize (Hlt eq_refl). assert (r = 0) by lia. subst r.
    destruct Hhead as (-> & -> & ->); [lia|]. rewrite (Hstart eq_refl) in *. subst.
    run_body. built.
  - specialize (Hlt eq_refl). destruct Hhead as (-> & -> & ->); [lia|].
    rewrite Hcl, Hpe in * by lia. subst.
    run_body. rewrite Nat.ltb_irrefl, andb_false_r.
    destruct tg; cbn; built.
  - rewrite Hat in * by lia. subst. run_body. built.
  - rewrite Hpc in * by lia. subst. run_body. built.
  - rewrite Hpe in * by lia. subst. run_body. built.
  - specialize (Hlt eq_refl). rewrite Hpe in * by lia. subst. run_body. built.
Qed.

Lemma last_tag_cons (tg : string) (c : Call) (cs : list Call) :
  last_tag tg (c :: cs) = last_tag (last_tag tg [c]) cs.
Proof. destruct c; reflexivity. Qed.

Lemma chain_Building (co : list string) (se : list jsval) (cs : list Call) :
  forall (tg : string) (r : nat) (s : string) (b : Builder),
    Building co se tg r s b ->
    ordered_after r cs = true ->
    exists b', chain cs b = Normal tt b'
               /\ Building co se (last_tag tg cs) (last_rank r cs)
                    (s ++ expected_text cs) b'.
Proof.
  induction cs as [|c cs IH]; intros tg r s b Hb Hord.
  - exists b. cbn [chain expected_text last_tag last_rank].
    rewrite append_empty_r. split; [reflexivity | exact Hb].
  - cbn [ordered_after] in Hord. apply andb_prop in Hord as [Hc Hrest].
    destruct (call_Building c Hb Hc) as (b1 & Hcall & Hb1).
    destruct (IH _ _ _ _ Hb1 Hrest) as (b2 & Hchain & Hb2).
    exists b2. split.
    + cbn [chain]. unfold bind. rewrite Hcall. exact Hchain.
    + rewrite last_tag_cons. cbn [last_rank expected_text].
      rewrite <- append_assoc. exact Hb2.
Qed.

(** With an empty [combo], [stringify] returns the sequence and leaves the
    object clean. *)
Lemma stringify_Building {se : list jsval} {tg : string} {r : nat} {s : string}
    {b : Builder} :
  Building [] se tg r s b ->
  cssSelectorBuilder.stringify b
  = Normal s (mkBuilder SelectObj.initial [] se true false).
Proof.
  intros Hb. destruct Hb as [Hco Hse Hseq _ _ _ _ _ _ _ _ _ _ _].
  destruct b as [o co' se' fm fi]; cbn in *. subst.
  run_body. reflexivity.
Qed.

(** ** Rendering one simple selector *)

Lemma stringify_valid_chain_aux (cs : list Call) :
  valid_order cs = true ->
  (chain cs ;; cssSelectorBuilder.stringify) fresh
  = Normal (expected_text cs) fresh.
Proof.
  intros Hord.
  destruct (chain_Building [] [] cs _ _ _ _ (Building_start [] [] true) Hord)
    as (b & Hrun & Hb).
  unfold bind.
  change (mkBuilder SelectObj.initial [] [] true false) with fresh in Hrun.
  rewrite Hrun. apply (stringify_Building Hb).
Qed.

(** C1. Every chain on a fresh builder whose calls follow the category order
    element, id, class*, attr*, pseudoClass*, pseudoElement (each optional,
    the starred ones repeatable) is accepted, and [stringify()] returns the
    fragments with their prefixes concatenated in call order; the builder is
    fresh again afterwards. *)
Theorem stringify_valid_chain (cs : list Call) :
  valid_order cs = true ->
  (chain cs ;; cssSelectorBuilder.stringify) fresh
  = Normal (expected_text cs) fresh.
Proof. exact (stringify_valid_chain_aux cs). Qed.

Lemma stringify_valid_chain_witness :
  valid_order [Element "a"; Attr "href$=.png"; Attr "title"; PseudoClass "focus";
               PseudoClass "hover"; PseudoElement "before"] = true
  /\ (chain [Element "a"; Attr "href$=.png"; Attr "title"; PseudoClass "focus";
             PseudoClass "hover"; PseudoElement "before"] ;;
      cssSelectorBuilder.stringify) fresh
     = Normal "a[href$=.png][title]:focus:hover::before" fresh.
Proof.
  split; [reflexivity|].
  apply (stringify_valid_chain
           [Element "a"; Attr "href$=.png"; Attr "title"; PseudoClass "focus";
            PseudoClass "hover"; PseudoElement "before"]).
  reflexivity.
Defined.

(** ** Combining two chains *)

(** An [element] call on a finished selector stores its text and starts the
    next selector. *)
Lemma element_flush (b : Builder) (v : string) :
  truthy (SelectObj.seq (selectObj b)) = true ->
  firstMode b = false -> firstId b = false ->
  cssSelectorBuilder.element v b = Normal tt (next_selector v b).
Proof.
  intros Hs Hfm Hfi.
  destruct b as [o co se fm fi]; cbn in *. subst.
  run_body. rewrite Hs. cbn. rewrite Hs. reflexivity.
Qed.

Lemma Building_element (co : list string) (se : list jsval) (v : string) :
  Building co se v 1 v
    (mkBuilder (SelectObj.mk v "" "" "" "" "" v "") co se true false).
Proof. constructor; cbn; intros; auto; lia. Qed.

(** [combine] on a selector with a non-empty text stores the text and then
    the combinator. *)
Lemma combine_Building {co : list string} {se : list jsval} {tg : string} {r : nat}
    {s : string} {b : Builder} (args : list jsval) :
  Building co se tg r s b ->
  truthy s = true ->
  cssSelectorBuilder.combine args b
  = Normal tt
      (mkBuilder SelectObj.initial (co ++ [s]) (se ++ [nth 1 args JUndefined])
         (firstMode b) (firstId b)).
Proof.
  intros [Hco Hse Hseq _ _ _ _ _ _ _ _ _ _ _] Hs.
  destruct b as [o co' se' fm fi]; cbn in *. subst.
  run_body. rewrite Hs. cbn. rewrite Hs. reflexivity.
Qed.

Lemma complete_flags {co : list string} {se : list jsval} {a : list Call}
    {s : string} {b : Builder} :
  complete a = true ->
  Building co se (last_tag "" a) (last_rank 0 a) s b ->
  truthy s = true /\ firstMode b = false /\ firstId b = false.
Proof.
  unfold complete. intros Hc Hb.
  assert (H2 : 2 <= last_rank 0 a
               /\ (3 <= last_rank 0 a \/ truthy (last_tag "" a) = true)).
  { apply orb_prop in Hc as [H|H].
    - apply Nat.leb_le in H. split; [lia | now left].
    - apply andb_prop in H as [H H']. apply Nat.leb_le in H. auto. }
  destruct H2 as [H2 H3].
  destruct Hb as [_ _ _ _ _ _ _ _ _ _ _ Hmode Hfid Htext]. auto.
Qed.

Lemma stringify_of_Simple (cs : list Call) (b : Builder) :
  stringify_of (Simple cs) b = (chain cs ;; cssSelectorBuilder.stringify) b.
Proof.
  unfold stringify_of, build, bind, ret. now destruct (chain cs b).
Qed.

(** Two stored texts and one combinator render as text, combinator, text. *)
Lemma stringify_pair (sa sb : string) (c : jsval) (fm fi : bool) :
  cssSelectorBuilder.stringify
    (mkBuilder SelectObj.initial [sa; sb] [c] fm fi)
  = Normal (sa ++ " " ++ join_item c ++ " " ++ sb) fresh.
Proof. reflexivity. Qed.

(** The operands on which [combine] does join two chains: for chains [a]
    and [b] in valid category order, where [a] ends with a class, attribute,
    pseudo-class or pseudo-element (or is an element with a non-empty tag
    followed by an id) and [b] opens with an element call and has a
    non-empty text, [combine(a, c, b).stringify()] returns the text of [a],
    a space, the combinator [c], a space and the text of [b], for every
    combinator string [c]; each text is what the chain renders to on its
    own. *)
Lemma combine_two_chains (a b : list Call) (c : string) :
  valid_order a = true -> complete a = true ->
  valid_order b = true -> starts_new b = true ->
  stringify_of (Simple a) fresh = Normal (expected_text a) fresh
  /\ stringify_of (Simple b) fresh = Normal (expected_text b) fresh
  /\ stringify_of (Combine (Simple a) (JString c) (Simple b)) fresh
     = Normal (expected_text a ++ " " ++ c ++ " " ++ expected_text b) fresh.
Proof.
  intros Ha Hca Hb Hsb.
  split; [rewrite stringify_of_Simple; now apply stringify_valid_chain_aux|].
  split; [rewrite stringify_of_Simple; now apply stringify_valid_chain_aux|].
  destruct (chain_Building [] [] a _ _ _ _ (Building_start [] [] true) Ha)
    as (ba & Hrun_a & Hba).
  change (mkBuilder SelectObj.initial [] [] true false) with fresh in Hrun_a.
  cbn [append] in Hba.
  destruct (complete_flags Hca Hba) as (Hsa & Hfm & Hfi).
  destruct b as [|[v| | | | |] rest]; try discriminate Hsb.
  cbn [starts_new] in Hsb.
  unfold valid_order in Hb. cbn [ordered_after repeatable rank] in Hb.
  apply andb_prop in Hb as [_ Hrest].
  destruct (chain_Building _ _ rest _ _ _ _
              (Building_element ([] ++ [expected_text a]) [] v) Hrest)
    as (bb & Hrun_b & Hbb).
  unfold stringify_of. cbn [build chain call]. unfold bind, ret.
  destruct Hba as [Hco Hse Hseq _ _ _ _ _ _ _ _ _ _ _].
  rewrite Hrun_a, (element_flush ba v) by (rewrite ?Hseq; assumption).
  unfold next_selector. rewrite Hco, Hse, Hseq, Hrun_b.
  rewrite (combine_Building _ Hbb Hsb). cbn [nth app].
  apply stringify_pair.
Qed.

Lemma combine_two_chains_witness :
  valid_order [Element "div"; Id "main"; Class "container"] = true
  /\ complete [Element "div"; Id "main"; Class "container"] = true
  /\ valid_order [Element "table"; Id "data"] = true
  /\ starts_new [Element "table"; Id "data"] = true
  /\ stringify_of
       (Combine (Simple [Element "div"; Id "main"; Class "container"])
          (JString "+") (Simple [Element "table"; Id "data"])) fresh
     = Normal "div#main.container + table#data" fresh.
Proof.
  repeat (split; [reflexivity|]).
  apply (combine_two_chains
           [Element "div"; Id "main"; Class "container"]
           [Element "table"; Id "data"] "+"); reflexivity.
Defined.

(** C2, on the code. [combine] does not join every two chains.
    [element('div')] and [element('a')] render to ['div'] and ['a'] on
    their own, but in [combine(element('div'), '+', element('a'))] the
    second [element] call meets the tag of the first on the shared builder
    and throws the duplicate error.  [class('x')] and [class('y')] render
    to ['.x'] and ['.y'], but [combine(class('x'), '+', class('y'))] returns
    ['.x.y']: the second chain is appended to the first and the combinator
    is lost.  After [id('main')] the [element] call of the second operand
    throws the order error. *)
Theorem combine_fails_to_join :
  stringify_of (Simple [Element "div"]) fresh = Normal "div" fresh
  /\ stringify_of (Simple [Element "a"]) fresh = Normal "a" fresh
  /\ stringify_of
       (Combine (Simple [Element "div"]) (JString "+") (Simple [Element "a"]))
       fresh
     = Thrown errors.moreThanOne fresh
  /\ ~ combine_joins [Element "div"] "+" [Element "a"]
  /\ stringify_of (Simple [Class "x"]) fresh = Normal ".x" fresh
  /\ stringify_of (Simple [Class "y"]) fresh = Normal ".y" fresh
  /\ stringify_of
       (Combine (Simple [Class "x"]) (JString "+") (Simple [Class "y"])) fresh
     = Normal ".x.y" fresh
  /\ ~ combine_joins [Class "x"] "+" [Class "y"]
  /\ stringify_of (Simple [Id "main"]) fresh = Normal "#main" fresh
  /\ stringify_of (Simple [Element "p"]) fresh = Normal "p" fresh
  /\ stringify_of
       (Combine (Simple [Id "main"]) (JString "+") (Simple [Element "p"])) fresh
     = Thrown errors.order
         (mkBuilder SelectObj.initial ["#main"] [] true false).
Proof.
  repeat (split; [reflexivity|]).
  split.
  { intros H.
    destruct (H "div" "a" fresh fresh eq_refl eq_refl) as [b' Hb'].
    vm_compute in Hb'. discriminate Hb'. }
  repeat (split; [reflexivity|]).
  split.
  { intros H.
    destruct (H ".x" ".y" fresh fresh eq_refl eq_refl) as [b' Hb'].
    vm_compute in Hb'. discriminate Hb'. }
  repeat split.
Qed.

(** C3, on the code. In the left-nested
    [combine(combine(a, '+', b), '~', c)] with
    [a = element('div').id('a')], [b = element('p').id('b')] and
    [c = element('span').id('c')], each chain renders to its own text, yet
    the result carries the combinators in the reverse order of the
    [combine] calls: ['~'] stands between [a] and [b], ['+'] between [b]
    and [c]. *)
Theorem left_nested_combine_swaps_combinators :
  stringify_of (Simple [Element "div"; Id "a"]) fresh = Normal "div#a" fresh
  /\ stringify_of (Simple [Element "p"; Id "b"]) fresh = Normal "p#b" fresh
  /\ stringify_of (Simple [Element "span"; Id "c"]) fresh = Normal "span#c" fresh
  /\ stringify_of
       (Combine
          (Combine (Simple [Element "div"; Id "a"]) (JString "+")
             (Simple [Element "p"; Id "b"]))
          (JString "~")
          (Simple [Element "span"; Id "c"])) fresh
     = Normal "div#a ~ p#b + span#c" fresh.
Proof. repeat split. Qed.

(** ** What non-element calls keep *)

Lemma call_adds (c : Call) (b b' : Builder) :
  is_element c = false -> call c b = Normal tt b' -> added c b' = true.
Proof.
  destruct b as [[tag id cl at' pc pe sq pv] co se fm fi].
  destruct c; try discriminate; intros _; by_guards.
Qed.

Lemma call_keeps (c d : Call) (b b' : Builder) :
  is_element c = false -> call c b = Normal tt b' ->
  added d b = true -> added d b' = true.
Proof.
  destruct b as [[tag id cl at' pc pe sq pv] co se fm fi].
  destruct c; try discriminate; intros _; destruct d; by_guards.
Qed.

Lemma call_finishes (c : Call) (b b' : Builder) :
  3 <= rank c -> call c b = Normal tt b' -> finished b' = true.
Proof.
  destruct b as [[tag id cl at' pc pe sq pv] co se fm fi].
  destruct c; cbn [rank]; intros Hr; try lia; unfold finished; by_guards;
    rewrite truthy_append_r; reflexivity.
Qed.

Lemma call_keeps_finished (c : Call) (b b' : Builder) :
  is_element c = false -> call c b = Normal tt b' ->
  finished b = true -> finished b' = true.
Proof.
  intros Hc Hcall Hfin.
  destruct (Nat.le_gt_cases 3 (rank c)) as [Hr|Hr];
    [exact (call_finishes c b b' Hr Hcall)|].
  destruct c; cbn in Hc, Hr; try discriminate; try lia.
  destruct b as [[tag id cl at' pc pe sq pv] co se fm fi].
  unfold finished in *. cbn in Hfin.
  apply andb_prop in Hfin as [Hfin Hfi]. apply andb_prop in Hfin as [Hsq Hfm].
  destruct sq as [|ch sq]; [discriminate Hsq|].
  revert Hcall. by_guards.
Qed.

Section Kept.

Variable ok : Call -> bool.
Variable P : Builder -> bool.
Hypothesis P_kept :
  forall c b b', ok c = true -> call c b = Normal tt b' -> P b = true -> P b' = true.

Lemma chain_keeps (cs : list Call) :
  forall b b',
    forallb ok cs = true -> chain cs b = Normal tt b' -> P b = true -> P b' = true.
Proof.
  induction cs as [|c cs IH]; intros b b' Hok Hrun HP.
  - cbn in Hrun. unfold ret in Hrun. now inversion Hrun; subst.
  - cbn [forallb] in Hok. apply andb_prop in Hok as [Hc Hcs].
    cbn [chain] in Hrun. unfold bind in Hrun.
    destruct (call c b) as [[] b1|e b1] eqn:Hcall; [|discriminate].
    exact (IH b1 b' Hcs Hrun (P_kept c b b1 Hc Hcall HP)).
Qed.

End Kept.

Lemma chain_split (pre mid : list Call) (x : Call) (b0 b : Builder) :
  chain (pre ++ x :: mid) b0 = Normal tt b ->
  exists b1 b2,
    chain pre b0 = Normal tt b1 /\ call x b1 = Normal tt b2
    /\ chain mid b2 = Normal tt b.
Proof.
  rewrite chain_app. unfold bind at 1.
  destruct (chain pre b0) as [[] b1|e b1]; [|discriminate].
  cbn [chain]. unfold bind.
  destruct (call x b1) as [[] b2|e b2] eqn:Hx; [|discriminate].
  intros Hmid. now exists b1, b2.
Qed.

(** A fragment added to the current selector stays recorded until the next
    [element] call. *)
Lemma added_in_selector (pre mid : list Call) (x : Call) (b0 b : Builder) :
  chain (pre ++ x :: mid) b0 = Normal tt b ->
  is_element x = false -> no_element mid = true ->
  added x b = true.
Proof.
  intros Hrun Hx Hmid.
  destruct (chain_split pre mid x b0 b Hrun) as (b1 & b2 & _ & Hcall & Hrest).
  apply (chain_keeps (fun c => negb (is_element c)) (added x)) with mid b2; auto.
  - intros c ba bb Hc. apply call_keeps. now destruct (is_element c).
  - exact (call_adds x b1 b2 Hx Hcall).
Qed.

(** After a class, attribute, pseudo-class or pseudo-element the selector
    counts as finished until the next [element] call. *)
Lemma finished_in_selector (pre mid : list Call) (x : Call) (b0 b : Builder) :
  chain (pre ++ x :: mid) b0 = Normal tt b ->
  3 <= rank x -> no_element mid = true ->
  finished b = true.
Proof.
  intros Hrun Hx Hmid.
  destruct (chain_split pre mid x b0 b Hrun) as (b1 & b2 & _ & Hcall & Hrest).
  apply (chain_keeps (fun c => negb (is_element c)) finished) with mid b2; auto.
  - intros c ba bb Hc. apply call_keeps_finished. now destruct (is_element c).
  - exact (call_finishes x b1 b2 Hx Hcall).
Qed.

Lemma element_after_finished (b : Builder) (v : string) :
  finished b = true ->
  cssSelectorBuilder.element v b = Normal tt (next_selector v b).
Proof.
  unfold finished. intros H.
  apply andb_prop in H as [H Hfi]. apply andb_prop in H as [Hs Hfm].
  apply element_flush; auto.
  - now destruct (firstMode b).
  - now destruct (firstId b).
Qed.

(** ** The guards of the fragment methods *)

Lemma class_after_attr (b : Builder) (v : string) :
  truthy (SelectObj.attr (selectObj b)) = true ->
  cssSelectorBuilder.class v b = Thrown errors.order b.
Proof. intros H. run_body. now rewrite H. Qed.

Lemma attr_after_pseudoClass (b : Builder) (v : string) :
  truthy (SelectObj.pseudoClass (selectObj b)) = true ->
  cssSelectorBuilder.attr v b = Thrown errors.order (after_genError b).
Proof. intros H. run_body. now rewrite H. Qed.

Lemma pseudoClass_after_pseudoElement (b : Builder) (v : string) :
  truthy (SelectObj.pseudoElement (selectObj b)) = true ->
  cssSelectorBuilder.pseudoClass v b = Thrown errors.order (after_genError b).
Proof. intros H. run_body. now rewrite H. Qed.

Lemma id_after_pseudoElement (b : Builder) (v : string) :
  truthy (SelectObj.pseudoElement (selectObj b)) = true ->
  cssSelectorBuilder.id v b
  = Thrown (if truthy (SelectObj.id (selectObj b))
            then errors.moreThanOne else errors.order)
      (after_genError b).
Proof.
  intros H. run_body.
  destruct (truthy (SelectObj.id (selectObj b))); [reflexivity|].
  now rewrite H, orb_true_r.
Qed.

Lemma id_twice (b : Builder) (v : string) :
  truthy (SelectObj.id (selectObj b)) = true ->
  cssSelectorBuilder.id v b = Thrown errors.moreThanOne (after_genError b).
Proof. intros H. run_body. now rewrite H. Qed.

Lemma pseudoElement_twice (b : Builder) (v : string) :
  truthy (SelectObj.pseudoElement (selectObj b)) = true ->
  cssSelectorBuilder.pseudoElement v b
  = Thrown errors.moreThanOne (after_genError b).
Proof. intros H. run_body. now rewrite H. Qed.

Lemma call_keeps_first_when_empty (c : Call) (b b' : Builder) :
  call c b = Normal tt b' ->
  first_when_empty b = true -> first_when_empty b' = true.
Proof.
  destruct b as [[tag id cl at' pc pe sq pv] co se fm fi].
  unfold first_when_empty. cbn [selectObj SelectObj.seq firstMode].
  destruct c; by_guards; try (rewrite truthy_append_r; reflexivity).
  all: destruct (truthy sq), fm; cbn in *; try discriminate; apply orb_true_r.
Qed.

Lemma element_returns (b b' : Builder) (t : string) :
  first_when_empty b = true ->
  cssSelectorBuilder.element t b = Normal tt b' ->
  SelectObj.tag (selectObj b') = t /\ SelectObj.seq (selectObj b') = t
  /\ firstMode b' = true /\ firstId b' = false.
Proof.
  destruct b as [[tag id cl at' pc pe sq pv] co se fm fi].
  unfold first_when_empty. cbn [selectObj SelectObj.seq firstMode].
  intros HJ Hcall. revert Hcall. by_guards.
  repeat split; auto.
  destruct (truthy sq), fm; cbn in *; congruence.
Qed.

Lemma element_on_tag (b : Builder) (v : string) :
  truthy (SelectObj.tag (selectObj b)) = true ->
  firstMode b = true -> firstId b = false ->
  cssSelectorBuilder.element v b
  = Thrown errors.moreThanOne (after_genError b).
Proof.
  destruct b as [[tag id cl at' pc pe sq pv] co se fm fi]. cbn.
  intros Ht -> ->. run_body. rewrite andb_false_r. cbn.
  now rewrite Ht.
Qed.

Lemma element_twice (b b' : Builder) (t v : string) :
  first_when_empty b = true ->
  cssSelectorBuilder.element t b = Normal tt b' ->
  truthy t = true ->
  cssSelectorBuilder.element v b'
  = Thrown errors.moreThanOne (after_genError b').
Proof.
  intros HJ Hcall Ht.
  destruct (element_returns b b' t HJ Hcall) as (Htag & Hseq & Hfm & Hfi).
  apply element_on_tag; auto; congruence.
Qed.

Lemma forallb_all (cs : list Call) : forallb (fun _ => true) cs = true.
Proof. induction cs; cbn; auto. Qed.

(** ** Order errors *)

(** C4, as the code has it. Let a chain return normally with a fragment [x]
    that no later [element] call follows.  If [x] is an attribute, [class]
    throws the order error; if [x] is a pseudo-class, [attr] throws it; if
    [x] is a pseudo-element, [pseudoClass] throws it, [id] throws it when no
    id was added before (and the duplicate error otherwise), and [element]
    throws nothing: it stores the sequence and starts the next selector. *)
Theorem order_errors_in_one_selector (b0 b : Builder) (pre mid : list Call)
    (x : Call) (v : string) :
  chain (pre ++ x :: mid) b0 = Normal tt b ->
  no_element mid = true ->
  (forall a, x = Attr a ->
     cssSelectorBuilder.class v b = Thrown errors.order b)
  /\ (forall p, x = PseudoClass p ->
        cssSelectorBuilder.attr v b = Thrown errors.order (after_genError b))
  /\ (forall e, x = PseudoElement e ->
        cssSelectorBuilder.pseudoClass v b
        = Thrown errors.order (after_genError b)
        /\ cssSelectorBuilder.id v b
           = Thrown (if truthy (SelectObj.id (selectObj b))
                     then errors.moreThanOne else errors.order)
               (after_genError b)
        /\ cssSelectorBuilder.element v b = Normal tt (next_selector v b)).
Proof.
  intros Hrun Hmid. split; [|split].
  - intros a ->. apply class_after_attr.
    exact (added_in_selector pre mid (Attr a) b0 b Hrun eq_refl Hmid).
  - intros p ->. apply attr_after_pseudoClass.
    exact (added_in_selector pre mid (PseudoClass p) b0 b Hrun eq_refl Hmid).
  - intros e ->.
    pose proof (added_in_selector pre mid (PseudoElement e) b0 b Hrun eq_refl Hmid)
      as Hpe.
    split; [|split].
    + now apply pseudoClass_after_pseudoElement.
    + now apply id_after_pseudoElement.
    + apply element_after_finished.
      apply (finished_in_selector pre mid (PseudoElement e) b0 b Hrun);
        [cbn; lia | exact Hmid].
Qed.

Lemma order_errors_in_one_selector_witness :
  chain ([Element "p"] ++ PseudoElement "after" :: []) fresh
  = Normal tt (state_of (chain [Element "p"; PseudoElement "after"] fresh))
  /\ no_element [] = true
  /\ cssSelectorBuilder.pseudoClass "valid"
       (state_of (chain [Element "p"; PseudoElement "after"] fresh))
     = Thrown errors.order fresh.
Proof.
  split; [reflexivity|]. split; [reflexivity|].
  exact (proj1 (proj2 (proj2
           (order_errors_in_one_selector fresh
              (state_of (chain [Element "p"; PseudoElement "after"] fresh))
              [Element "p"] [] (PseudoElement "after") "valid"
              eq_refl eq_refl))
           "after" eq_refl)).
Defined.

(** C4 as stated fails: after [pseudoElement('after')], [element('div')]
    raises nothing. *)
Lemma element_after_pseudoElement_counterexample :
  chain [PseudoElement "after"; Element "div"] fresh
  = Normal tt
      (mkBuilder (SelectObj.mk "div" "" "" "" "" "" "div" "") ["::after"] []
         true false)
  /\ ~ raises (chain [PseudoElement "after"; Element "div"]) fresh errors.order.
Proof.
  split; [reflexivity|]. intros [b' H]. vm_compute in H. discriminate H.
Qed.

(** C5, on the code. [attr('href').id('main')] on a fresh builder raises
    nothing: [id] looks at the class and pseudo-element slots and, when a tag
    is set, at the length of the sequence, so an attribute or pseudo-class
    without an element goes unnoticed and the id lands behind it. *)
Theorem id_after_attr_without_element :
  chain [Attr "href"; Id "main"] fresh
  = Normal tt
      (mkBuilder (SelectObj.mk "" "#main" "" "[href]" "" "" "[href]#main" "")
         [] [] false false)
  /\ (chain [Attr "href"; Id "main"] ;; cssSelectorBuilder.stringify) fresh
     = Normal "[href]#main" fresh
  /\ (chain [PseudoClass "hover"; Id "main"] ;; cssSelectorBuilder.stringify) fresh
     = Normal ":hover#main" fresh
  /\ chain [Element "a"; Attr "href"; Id "main"] fresh
     = Thrown errors.order fresh.
Proof. repeat split. Qed.

(** C6, as the code has it. [element] throws the order error when an id
    opened the chain and nothing followed it, after storing the id's text in
    [combo]; once a class, attribute, pseudo-class or pseudo-element was
    added and no [element] call followed, [element] throws nothing: it
    stores the sequence built so far in [combo] and starts the next selector
    with the given tag. *)
Theorem element_after_other_fragments (b0 b : Builder) (pre mid : list Call)
    (x : Call) (i t : string) :
  chain (pre ++ x :: mid) b0 = Normal tt b ->
  (3 <= rank x)%nat ->
  no_element mid = true ->
  chain [Id i; Element t] fresh
  = Thrown errors.order (mkBuilder SelectObj.initial ["#" ++ i] [] true false)
  /\ cssSelectorBuilder.element t b = Normal tt (next_selector t b).
Proof.
  intros Hrun Hx Hmid. split; [reflexivity|].
  apply element_after_finished.
  exact (finished_in_selector pre mid x b0 b Hrun Hx Hmid).
Qed.

Lemma element_after_other_fragments_witness :
  chain ([Element "div"] ++ Class "draggable" :: [PseudoClass "hover"]) fresh
  = Normal tt
      (state_of (chain [Element "div"; Class "draggable"; PseudoClass "hover"] fresh))
  /\ (3 <= rank (Class "draggable"))%nat
  /\ no_element [PseudoClass "hover"] = true
  /\ chain [Id "main"; Element "table"] fresh
     = Thrown errors.order (mkBuilder SelectObj.initial ["#main"] [] true false)
  /\ cssSelectorBuilder.element "table"
       (state_of (chain [Element "div"; Class "draggable"; PseudoClass "hover"] fresh))
     = Normal tt
         (mkBuilder (SelectObj.mk "table" "" "" "" "" "" "table" "")
            ["div.draggable:hover"] [] true false).
Proof.
  split; [reflexivity|]. split; [cbn; lia|]. split; [reflexivity|].
  apply (element_after_other_fragments fresh
           (state_of (chain [Element "div"; Class "draggable"; PseudoClass "hover"] fresh))
           [Element "div"] [PseudoClass "hover"] (Class "draggable") "main" "table");
    [reflexivity | cbn; lia | reflexivity].
Defined.

(** C6 as stated fails: after [class('draggable')], [element('table')]
    raises nothing. *)
Lemma element_after_class_counterexample :
  chain [Class "draggable"; Element "table"] fresh
  = Normal tt
      (mkBuilder (SelectObj.mk "table" "" "" "" "" "" "table" "")
         [".draggable"] [] true false)
  /\ ~ raises (chain [Class "draggable"; Element "table"]) fresh errors.order.
Proof.
  split; [reflexivity|]. intros [b' H]. vm_compute in H. discriminate H.
Qed.

(** ** Duplicate errors *)

(** C7, as the code has it. Let a chain return normally with a call [x]
    that no later [element] call follows.  If [x] is an id, a second [id]
    throws the duplicate error; if [x] is a pseudo-element, a second
    [pseudoElement] throws it; if [x] is an element with a non-empty tag,
    is the last call, and the chain started on a builder where an empty
    sequence is only met in first mode (a fresh one, for instance), a second
    [element] throws it. *)
Theorem duplicate_errors_in_one_selector (b0 b : Builder) (pre mid : list Call)
    (x : Call) (v : string) :
  chain (pre ++ x :: mid) b0 = Normal tt b ->
  no_element mid = true ->
  (forall i, x = Id i ->
     cssSelectorBuilder.id v b
     = Thrown errors.moreThanOne (after_genError b))
  /\ (forall e, x = PseudoElement e ->
        cssSelectorBuilder.pseudoElement v b
        = Thrown errors.moreThanOne (after_genError b))
  /\ (forall t, x = Element t -> mid = [] -> truthy t = true ->
        first_when_empty b0 = true ->
        cssSelectorBuilder.element v b
        = Thrown errors.moreThanOne (after_genError b)).
Proof.
  intros Hrun Hmid. split; [|split].
  - intros i ->. apply id_twice.
    exact (added_in_selector pre mid (Id i) b0 b Hrun eq_refl Hmid).
  - intros e ->. apply pseudoElement_twice.
    exact (added_in_selector pre mid (PseudoElement e) b0 b Hrun eq_refl Hmid).
  - intros t -> -> Ht H0.
    destruct (chain_split pre [] (Element t) b0 b Hrun)
      as (b1 & b2 & Hpre & Hcall & Hrest).
    cbn in Hrest. unfold ret in Hrest. inversion Hrest; subst b2.
    apply (element_twice b1 b t v); auto.
    apply (chain_keeps (fun _ => true) first_when_empty) with pre b0; auto.
    + intros c ba bb _. apply call_keeps_first_when_empty.
    + apply forallb_all.
Qed.

Lemma duplicate_errors_in_one_selector_witness :
  chain ([Element "div"] ++ Id "main" :: [Class "container"]) fresh
  = Normal tt
      (state_of (chain [Element "div"; Id "main"; Class "container"] fresh))
  /\ no_element [Class "container"] = true
  /\ cssSelectorBuilder.id "other"
       (state_of (chain [Element "div"; Id "main"; Class "container"] fresh))
     = Thrown errors.moreThanOne fresh.
Proof.
  split; [reflexivity|]. split; [reflexivity|].
  exact (proj1
           (duplicate_errors_in_one_selector fresh
              (state_of (chain [Element "div"; Id "main"; Class "container"] fresh))
              [Element "div"] [Class "container"] (Id "main") "other"
              eq_refl eq_refl)
           "main" eq_refl).
Defined.

(** C7 as stated fails: in [element('div').id('main').element('p')] the
    second [element] call raises nothing. *)
Lemma second_element_counterexample :
  chain [Element "div"; Id "main"; Element "p"] fresh
  = Normal tt
      (mkBuilder (SelectObj.mk "p" "" "" "" "" "" "p" "") ["div#main"] []
         true false)
  /\ ~ raises (chain [Element "div"; Id "main"; Element "p"]) fresh
        errors.moreThanOne.
Proof.
  split; [reflexivity|]. intros [b' H]. vm_compute in H. discriminate H.
Qed.

(** ** State left behind *)

(** C8, on the code. [class] throws the order error directly, without
    [genError]: after [attr('href').class('x')] the attribute is still in
    the builder, and the next chain [element('div')] renders ['[href]']
    where a fresh builder renders ['div'].  [genError] itself keeps
    [combo]: [id('main').element('div')] throws with ['#main'] stored, and
    the next chain [element('p')] renders ['#main']. *)
Theorem errors_leave_state_behind :
  chain [Attr "href"; Class "x"] fresh
  = Thrown errors.order
      (mkBuilder (SelectObj.mk "" "" "" "[href]" "" "" "[href]" "") [] []
         false false)
  /\ (chain [Element "div"] ;; cssSelectorBuilder.stringify)
       (mkBuilder (SelectObj.mk "" "" "" "[href]" "" "" "[href]" "") [] []
          false false)
     = Normal "[href]"
         (mkBuilder (SelectObj.mk "div" "" "" "" "" "" "div" "") [] [] true false)
  /\ (chain [Element "div"] ;; cssSelectorBuilder.stringify) fresh
     = Normal "div" fresh
  /\ chain [Id "main"; Element "div"] fresh
     = Thrown errors.order (mkBuilder SelectObj.initial ["#main"] [] true false)
  /\ (chain [Element "p"] ;; cssSelectorBuilder.stringify)
       (mkBuilder SelectObj.initial ["#main"] [] true false)
     = Normal "#main"
         (mkBuilder (SelectObj.mk "p" "" "" "" "" "" "p" "") [] [] true false)
  /\ (chain [Element "p"] ;; cssSelectorBuilder.stringify) fresh
     = Normal "p" fresh.
Proof. repeat split. Qed.

(** C9, on the code. When [combo] is not empty, [stringify] clears the two
    lists and the flags but not [selectObj]:
    [element('a').id('x').element('b').stringify()] returns ['a#x'] and
    leaves the tag ['b'] behind, so the next chain [element('c')] throws the
    duplicate error where a fresh builder renders ['c'].  When [combo] is
    empty, [stringify] keeps [comboSeparators]. *)
Theorem stringify_leaves_state_behind :
  (chain [Element "a"; Id "x"; Element "b"] ;; cssSelectorBuilder.stringify) fresh
  = Normal "a#x"
      (mkBuilder (SelectObj.mk "b" "" "" "" "" "" "b" "") [] [] true false)
  /\ (chain [Element "c"] ;; cssSelectorBuilder.stringify)
       (mkBuilder (SelectObj.mk "b" "" "" "" "" "" "b" "") [] [] true false)
     = Thrown errors.moreThanOne fresh
  /\ (chain [Element "c"] ;; cssSelectorBuilder.stringify) fresh
     = Normal "c" fresh
  /\ (cssSelectorBuilder.combine [JObject; JString "+"; JObject] ;;
      cssSelectorBuilder.stringify) fresh
     = Normal "" (mkBuilder SelectObj.initial [] [JString "+"] true false).
Proof. repeat split. Qed.

(** ** The operands of combine *)

(** C10. [combine] reads its second argument only: from one builder state,
    two calls with the same combinator and any first and third arguments
    complete alike, leave the same builder, and the [stringify()] that
    follows completes alike too. *)
Theorem combine_ignores_operands (b : Builder) (c l1 r1 l2 r2 : jsval) :
  cssSelectorBuilder.combine [l1; c; r1] b
  = cssSelectorBuilder.combine [l2; c; r2] b
  /\ (cssSelectorBuilder.combine [l1; c; r1] ;; cssSelectorBuilder.stringify) b
     = (cssSelectorBuilder.combine [l2; c; r2] ;; cssSelectorBuilder.stringify) b.
Proof. split; reflexivity. Qed.

(** ** Rendering the stored texts *)

Lemma join_cons (sep : string) (x y : jsval) (l : list jsval) :
  join sep (x :: y :: l) = join_item x ++ sep ++ join sep (y :: l).
Proof. reflexivity. Qed.

Lemma interleave_cons (t t' : string) (l : list string) (ss : list jsval) :
  interleave (t :: t' :: l) ss
  = t ++ " " ++ join_item (hd JUndefined ss) ++ " " ++ interleave (t' :: l) (tl ss).
Proof. reflexivity. Qed.

Lemma nth_skipn_hd (i : nat) (ss : list jsval) :
  nth i ss JUndefined = hd JUndefined (skipn i ss).
Proof.
  revert ss; induction i as [|i IH]; intros [|x ss]; cbn; auto.
Qed.

Lemma tl_skipn (i : nat) (ss : list jsval) : tl (skipn i ss) = skipn (S i) ss.
Proof.
  revert ss; induction i as [|i IH]; intros [|x ss]; cbn; auto.
Qed.

(** The [flatMap] of [stringify], started at index [i] on the last items of
    an array of length [n]. *)
Lemma join_flatMap_from (ss : list jsval) (l : list string) :
  forall i n,
    n = i + length l ->
    join " "
      (flatMap_from
         (fun item index =>
            if (index <? n - 1)%nat
            then [JString item; nth index ss JUndefined]
            else [JString item])
         i l)
    = interleave l (skipn i ss).
Proof.
  induction l as [|t l IH]; intros i n Hn; [reflexivity|].
  cbn [flatMap_from]. cbn [length] in Hn.
  destruct l as [|t' l].
  - cbn [length] in Hn.
    replace (i <? n - 1)%nat with false
      by (symmetry; apply Nat.ltb_ge; lia).
    reflexivity.
  - cbn [length] in Hn.
    replace (i <? n - 1)%nat with true
      by (symmetry; apply Nat.ltb_lt; lia).
    specialize (IH (S i) n). cbn [length] in IH.
    cbn [app]. rewrite join_cons.
    remember (flatMap_from _ (S i) (t' :: l)) as more eqn:Hmore.
    assert (Hne : exists y m, more = y :: m).
    { rewrite Hmore. cbn [flatMap_from].
      destruct (S i <? n - 1)%nat; cbn; eauto. }
    destruct Hne as (y & m & Hy). rewrite Hy, join_cons, <- Hy.
    rewrite IH by lia.
    rewrite interleave_cons, nth_skipn_hd, tl_skipn. reflexivity.
Qed.

Lemma stringify_combo_aux (b : Builder) :
  combo b <> [] ->
  cssSelectorBuilder.stringify b
  = Normal (interleave (combo b) (rev (comboSeparators b)))
      (mkBuilder (selectObj b) [] [] true false).
Proof.
  destruct b as [o co se fm fi]; cbn [combo comboSeparators selectObj].
  intros Hco. destruct co as [|t co]; [congruence|].
  unfold cssSelectorBuilder.stringify, bind, get, modify, ret.
  cbn [combo length Nat.ltb Nat.leb set_comboSeparators comboSeparators
       selectObj firstMode firstId set_combo set_firstMode set_firstId].
  unfold flatMap.
  f_equal.
  exact (join_flatMap_from (rev se) (t :: co) 0 (length (t :: co)) eq_refl).
Qed.

(** ** Expressions of any shape *)

Lemma stringify_empty_combo (b : Builder) :
  combo b = [] ->
  cssSelectorBuilder.stringify b
  = Normal (SelectObj.seq (selectObj b))
      (mkBuilder SelectObj.initial [] (comboSeparators b) true false).
Proof.
  destruct b as [o co se fm fi]; cbn. intros ->. reflexivity.
Qed.

Lemma combine_pending (b : Builder) (args : list jsval) :
  truthy (SelectObj.seq (selectObj b)) = true ->
  cssSelectorBuilder.combine args b
  = Normal tt
      (mkBuilder SelectObj.initial (combo b ++ [SelectObj.seq (selectObj b)])
         (comboSeparators b ++ [nth 1 args JUndefined])
         (firstMode b) (firstId b)).
Proof.
  intros Hs. destruct b as [o co se fm fi]; cbn in *.
  run_body. rewrite Hs. cbn. rewrite Hs. reflexivity.
Qed.

Lemma combine_idle (b : Builder) (args : list jsval) :
  SelectObj.seq (selectObj b) = "" ->
  cssSelectorBuilder.combine args b
  = Normal tt
      (set_comboSeparators (comboSeparators b ++ [nth 1 args JUndefined]) b).
Proof.
  intros Hs. destruct b as [o co se fm fi]; cbn in *.
  run_body. rewrite Hs. reflexivity.
Qed.

Lemma Building_tag (co : list string) (se : list jsval) (v : string) (fm : bool) :
  Building co se v 1 v
    (mkBuilder (SelectObj.mk v "" "" "" "" "" v "") co se fm false).
Proof. constructor; cbn; intros; auto; lia. Qed.

Lemma element_on_idle (co : list string) (se : list jsval) (b : Builder) (v : string) :
  Idle co se b ->
  cssSelectorBuilder.element v b
  = Normal tt
      (mkBuilder (SelectObj.mk v "" "" "" "" "" v "") co se (firstMode b) false).
Proof.
  intros (Ho & Hco & Hse & Hfi).
  destruct b as [o co' se' fm fi]; cbn in *. subst. reflexivity.
Qed.

(** One operand, from a builder that is idle or holds a finished selector. *)
Lemma chain_operand (a : list Call) (right : bool) (co : list string)
    (se : list jsval) (pend : option string) (b : Builder) :
  valid_order a = true -> starts_new a = true ->
  (if right then closes a else complete a) = true ->
  At co se pend b ->
  exists b', chain a b = Normal tt b'
             /\ Pending (co ++ waiting pend) se (expected_text a) (negb right) b'.
Proof.
  intros Hord Hnew Hend Hat.
  destruct a as [|[v| | | | |] rest]; try discriminate Hnew.
  cbn [starts_new] in Hnew.
  unfold valid_order in Hord. cbn [ordered_after repeatable rank] in Hord.
  apply andb_prop in Hord as [_ Hrest].
  assert (Hstart : exists b1,
             cssSelectorBuilder.element v b = Normal tt b1
             /\ Building (co ++ waiting pend) se v 1 v b1).
  { destruct pend as [t|]; cbn [At waiting] in *.
    - destruct Hat as (Hco & Hse & Hseq & Ht & Hfi & Hfm).
      eexists. split.
      + apply element_flush; [now rewrite Hseq | now apply Hfm | exact Hfi].
      + unfold next_selector. rewrite Hco, Hse, Hseq. apply Building_element.
    - rewrite app_nil_r. eexists. split.
      + apply (element_on_idle co se b v Hat).
      + apply Building_tag. }
  destruct Hstart as (b1 & Hel & Hb1).
  destruct (chain_Building _ _ rest _ _ _ _ Hb1 Hrest) as (b2 & Hrun & Hb2).
  exists b2. split.
  - cbn [chain call]. unfold bind. now rewrite Hel.
  - change (last_tag v rest) with (last_tag "" (Element v :: rest)) in Hb2.
    change (last_rank 1 rest) with (last_rank 0 (Element v :: rest)) in Hb2.
    change (v ++ expected_text rest) with (expected_text (Element v :: rest)) in Hb2.
    set (a := Element v :: rest) in *.
    pose proof Hb2 as [Hco Hse Hseq _ _ _ Hhead _ _ _ _ Hmode Hfid _].
    repeat split; auto.
    + destruct (Nat.le_gt_cases (last_rank 0 a) 1) as [Hr|Hr].
      * now destruct (Hhead Hr) as (_ & _ & ?).
      * apply Hfid; [lia|].
        destruct right.
        -- unfold closes in Hend. apply orb_prop in Hend as [H|H]; [|now right].
           left. apply negb_true_iff, Nat.eqb_neq in H. lia.
        -- unfold complete in Hend. apply orb_prop in Hend as [H|H].
           ++ left. now apply Nat.leb_le.
           ++ right. now apply andb_prop in H as [_ ?].
    + intros Hfin. destruct right; [discriminate|].
      now destruct (complete_flags Hend Hb2) as (_ & ? & _).
Qed.

Lemma texts_not_empty (e : Selector) : texts e <> [].
Proof.
  induction e as [cs|l IHl c r IHr]; cbn; [discriminate|].
  destruct (texts l); [congruence | discriminate].
Qed.

(** Where an expression leaves the builder: a chain waits in the sequence,
    a [combine] has stored every text and every combinator. *)
Definition Built (right : bool) (co : list string) (se : list jsval)
    (pend : option string) (e : Selector) (b : Builder) : Prop :=
  match e with
  | Simple a => Pending (co ++ waiting pend) se (expected_text a) (negb right) b
  | Combine _ _ _ =>
      Idle (co ++ waiting pend ++ texts e) (se ++ combinators e) b
  end.

Lemma build_operands (e : Selector) :
  forall right co se pend b,
    operands_ok right e = true ->
    At co se pend b ->
    exists b', build e b = Normal JObject b' /\ Built right co se pend e b'.
Proof.
  induction e as [a|l IHl c r IHr]; intros right co se pend b Hok Hat.
  - cbn [operands_ok] in Hok.
    apply andb_prop in Hok as [Hok Hend]. apply andb_prop in Hok as [Hord Hnew].
    destruct (chain_operand a right co se pend b Hord Hnew Hend Hat)
      as (b' & Hrun & Hb').
    exists b'. split; [|exact Hb'].
    cbn [build]. unfold bind, ret. now rewrite Hrun.
  - cbn [operands_ok] in Hok. apply andb_prop in Hok as [Hl Hr].
    destruct (IHl false co se pend b Hl Hat) as (b1 & Hrun1 & Hb1).
    (* the builder after the left operand, as a start for the right one *)
    assert (Hmid : exists co1 se1 p1,
               At co1 se1 p1 b1
               /\ (co1 ++ waiting p1 = co ++ waiting pend ++ texts l)%list
               /\ se1 = (se ++ combinators l)%list).
    { destruct l as [a|l1 c1 l2]; cbn [Built negb texts combinators] in Hb1.
      - exists (co ++ waiting pend)%list, se, (Some (expected_text a)).
        cbn [At waiting]. rewrite app_nil_r, <- List.app_assoc. auto.
      - eexists _, _, None. cbn [At waiting].
        split; [exact Hb1|]. now rewrite app_nil_r. }
    destruct Hmid as (co1 & se1 & p1 & Hat1 & Hco1 & Hse1).
    destruct (IHr true co1 se1 p1 b1 Hr Hat1) as (b2 & Hrun2 & Hb2).
    cbn [build]. unfold bind, ret. rewrite Hrun1, Hrun2.
    cbn [Built texts combinators].
    destruct r as [a|r1 c2 r2]; cbn [Built negb texts combinators] in Hb2.
    + destruct Hb2 as (Hco & Hse & Hseq & Ht & Hfi & _).
      rewrite combine_pending by now rewrite Hseq.
      eexists. split; [reflexivity|].
      cbn [nth]. rewrite Hco, Hse, Hseq, Hfi, Hco1, Hse1.
      repeat split; cbn; now rewrite <- ?List.app_assoc.
    + destruct Hb2 as (Ho & Hco & Hse & Hfi).
      rewrite combine_idle by now rewrite Ho.
      eexists. split; [reflexivity|].
      destruct b2 as [o2 co2 se2 fm2 fi2]; cbn in *. subst.
      repeat split; cbn.
      * rewrite (List.app_assoc co1), Hco1.
        now rewrite <- !List.app_assoc.
      * now rewrite <- !List.app_assoc.
Qed.

Lemma stringify_operands_aux (e : Selector) :
  operands_ok true e = true ->
  stringify_of e fresh
  = Normal (interleave (texts e) (rev (combinators e))) fresh.
Proof.
  intros Hok.
  assert (Hat : At [] [] None fresh) by (repeat split).
  destruct (build_operands e true [] [] None fresh Hok Hat) as (b & Hrun & Hb).
  unfold stringify_of, bind. rewrite Hrun.
  destruct e as [a|l c r]; cbn [Built waiting app texts combinators] in Hb.
  - destruct Hb as (Hco & Hse & Hseq & _).
    rewrite stringify_empty_combo by exact Hco.
    rewrite Hseq, Hse. reflexivity.
  - destruct Hb as (Ho & Hco & Hse & _).
    rewrite stringify_combo_aux
      by (rewrite Hco; apply (texts_not_empty (Combine l c r))).
    rewrite Ho, Hco, Hse. reflexivity.
Qed.

(** X1. Whenever [combo] holds a text, [stringify] returns the stored texts
    joined by single spaces with the combinators in between, taken from
    [comboSeparators] last pushed first; a missing combinator prints as the
    empty string and surplus ones are dropped.  It empties both lists and
    resets the flags, but leaves [selectObj] as it is. *)
Theorem stringify_stored_texts (b : Builder) :
  combo b <> [] ->
  cssSelectorBuilder.stringify b
  = Normal (interleave (combo b) (rev (comboSeparators b)))
      (mkBuilder (selectObj b) [] [] true false).
Proof. exact (stringify_combo_aux b). Qed.

Lemma stringify_stored_texts_witness :
  ["a"; "b"; "c"] <> []
  /\ cssSelectorBuilder.stringify
       (mkBuilder (SelectObj.mk "p" "" "" "" "" "" "p" "") ["a"; "b"; "c"]
          [JString ">"] false true)
     = Normal "a > b  c"
         (mkBuilder (SelectObj.mk "p" "" "" "" "" "" "p" "") [] [] true false).
Proof.
  split; [discriminate|].
  apply (stringify_stored_texts
           (mkBuilder (SelectObj.mk "p" "" "" "" "" "" "p" "") ["a"; "b"; "c"]
              [JString ">"] false true)).
  discriminate.
Defined.

(** X2. For an expression of any nesting whose chains the builder can tell
    apart, [stringify()] on a fresh builder returns the texts of the chains
    in the order written, joined by single spaces, and between them the
    combinators in the reverse order of the [combine] calls; the builder is
    fresh again afterwards. *)
Theorem stringify_any_nesting (e : Selector) :
  operands_ok true e = true ->
  stringify_of e fresh
  = Normal (interleave (texts e) (rev (combinators e))) fresh.
Proof. exact (stringify_operands_aux e). Qed.

Lemma stringify_any_nesting_witness :
  operands_ok true
    (Combine
       (Combine (Simple [Element "a"; Class "x"]) (JString "+")
          (Simple [Element "b"; Class "y"]))
       (JString "~")
       (Combine (Simple [Element "c"; Class "z"]) (JString ">")
          (Simple [Element "d"]))) = true
  /\ stringify_of
       (Combine
          (Combine (Simple [Element "a"; Class "x"]) (JString "+")
             (Simple [Element "b"; Class "y"]))
          (JString "~")
          (Combine (Simple [Element "c"; Class "z"]) (JString ">")
             (Simple [Element "d"]))) fresh
     = Normal "a.x ~ b.y > c.z + d" fresh.
Proof.
  split; [reflexivity|].
  apply (stringify_any_nesting
           (Combine
              (Combine (Simple [Element "a"; Class "x"]) (JString "+")
                 (Simple [Element "b"; Class "y"]))
              (JString "~")
              (Combine (Simple [Element "c"; Class "z"]) (JString ">")
                 (Simple [Element "d"])))).
  reflexivity.
Defined.

Lemma texts_right_nested (rest : list (jsval * list Call)) :
  forall a,
    texts (right_nested a rest)
    = expected_text a :: map (fun p => expected_text (snd p)) rest.
Proof.
  induction rest as [|[c b] rest IH]; intros a; cbn; [reflexivity|].
  now rewrite IH.
Qed.

Lemma combinators_right_nested (rest : list (jsval * list Call)) :
  forall a, combinators (right_nested a rest) = rev (map fst rest).
Proof.
  induction rest as [|[c b] rest IH]; intros a; cbn; [reflexivity|].
  now rewrite IH.
Qed.

Lemma interleave_written (rest : list (jsval * list Call)) :
  forall a,
    interleave (expected_text a :: map (fun p => expected_text (snd p)) rest)
      (map fst rest)
    = written a rest.
Proof.
  induction rest as [|[c b] rest IH]; intros a; [reflexivity|].
  cbn [map fst snd written]. rewrite interleave_cons. cbn [hd tl].
  now rewrite IH.
Qed.

(** X3. A right-nested expression
    [combine(a, c1, combine(b, c2, combine(...)))] of any length, whose
    chains the builder can tell apart, renders as written: every combinator
    stands between the two chains it was passed with. *)
Theorem right_nested_as_written (a : list Call) (rest : list (jsval * list Call)) :
  operands_ok true (right_nested a rest) = true ->
  stringify_of (right_nested a rest) fresh = Normal (written a rest) fresh.
Proof.
  intros Hok. rewrite (stringify_operands_aux _ Hok).
  rewrite texts_right_nested, combinators_right_nested, rev_involutive.
  now rewrite interleave_written.
Qed.

Lemma right_nested_as_written_witness :
  operands_ok true
    (right_nested [Element "div"; Id "main"]
       [(JString "+", [Element "table"; Id "data"]);
        (JString "~", [Element "tr"; PseudoClass "hover"]);
        (JString " ", [Element "td"])]) = true
  /\ stringify_of
       (right_nested [Element "div"; Id "main"]
          [(JString "+", [Element "table"; Id "data"]);
           (JString "~", [Element "tr"; PseudoClass "hover"]);
           (JString " ", [Element "td"])]) fresh
     = Normal "div#main + table#data ~ tr:hover   td" fresh.
Proof.
  split; [reflexivity|].
  apply (right_nested_as_written [Element "div"; Id "main"]
           [(JString "+", [Element "table"; Id "data"]);
            (JString "~", [Element "tr"; PseudoClass "hover"]);
            (JString " ", [Element "td"])]).
  reflexivity.
Defined.

(** ** What a throwing call leaves *)

Lemma thrown_state_aux (c : Call) (b b' : Builder) (msg : string) :
  call c b = Thrown msg b' ->
  (msg = errors.order \/ msg = errors.moreThanOne)
  /\ match c with
     | Class _ => b' = b
     | Element _ =>
         b' = after_genError b
         \/ b' = after_genError
                   (set_combo (combo b ++ [SelectObj.seq (selectObj b)]) b)
     | _ => b' = after_genError b
     end.
Proof.
  destruct b as [[tag id cl at' pc pe sq pv] co se fm fi].
  destruct c; destruct sq as [|ch sq], fm, fi; run_body;
    repeat match goal with
           | |- context [if ?g then _ else _] => destruct g eqn:?
           end;
    cbn; intros H; try discriminate; inversion H; subst;
    unfold after_genError; cbn; auto.
Qed.

(** X4. A fragment call that throws throws one of the two messages.
    [class] leaves the builder exactly as it was; every other method leaves
    a clean [selectObj] and reset flags and keeps both lists, except that
    [element] may first have stored the sequence in [combo]. *)
Theorem thrown_state (c : Call) (b b' : Builder) (msg : string) :
  call c b = Thrown msg b' ->
  (msg = errors.order \/ msg = errors.moreThanOne)
  /\ match c with
     | Class _ => b' = b
     | Element _ =>
         b' = after_genError b
         \/ b' = after_genError
                   (set_combo (combo b ++ [SelectObj.seq (selectObj b)]) b)
     | _ => b' = after_genError b
     end.
Proof. exact (thrown_state_aux c b b' msg). Qed.

Lemma thrown_state_witness :
  call (Element "div")
    (mkBuilder (SelectObj.mk "" "#main" "" "" "" "" "#main" "") ["a.x"]
       [JString "+"] false true)
  = Thrown errors.order
      (mkBuilder SelectObj.initial ["a.x"; "#main"] [JString "+"] true false)
  /\ (mkBuilder SelectObj.initial ["a.x"; "#main"] [JString "+"] true false
      = after_genError
          (mkBuilder (SelectObj.mk "" "#main" "" "" "" "" "#main" "") ["a.x"]
             [JString "+"] false true)
      \/ mkBuilder SelectObj.initial ["a.x"; "#main"] [JString "+"] true false
         = after_genError
             (set_combo (["a.x"] ++ ["#main"])
                (mkBuilder (SelectObj.mk "" "#main" "" "" "" "" "#main" "")
                   ["a.x"] [JString "+"] false true))).
Proof.
  split; [reflexivity|].
  exact (proj2 (thrown_state (Element "div")
                  (mkBuilder (SelectObj.mk "" "#main" "" "" "" "" "#main" "")
                     ["a.x"] [JString "+"] false true)
                  (mkBuilder SelectObj.initial ["a.x"; "#main"] [JString "+"]
                     true false)
                  errors.order eq_refl)).
Defined.

(** ** Accepted chains *)

Lemma call_appends (c : Call) (b b' : Builder) :
  is_element c = false -> call c b = Normal tt b' ->
  SelectObj.seq (selectObj b') = SelectObj.seq (selectObj b) ++ fragment c
  /\ SelectObj.tag (selectObj b') = SelectObj.tag (selectObj b)
  /\ combo b' = combo b /\ comboSeparators b' = comboSeparators b.
Proof.
  destruct b as [[tag id cl at' pc pe sq pv] co se fm fi].
  destruct c; try discriminate; intros _; by_guards.
Qed.

Lemma chain_appends (cs : list Call) :
  forall b b',
    no_element cs = true -> chain cs b = Normal tt b' ->
    SelectObj.seq (selectObj b') = SelectObj.seq (selectObj b) ++ expected_text cs
    /\ SelectObj.tag (selectObj b') = SelectObj.tag (selectObj b)
    /\ combo b' = combo b /\ comboSeparators b' = comboSeparators b.
Proof.
  induction cs as [|c cs IH]; intros b b' Hno Hrun.
  - cbn in Hrun. unfold ret in Hrun. inversion Hrun; subst.
    cbn. now rewrite append_empty_r.
  - unfold no_element in Hno. cbn [forallb] in Hno.
    apply andb_prop in Hno as [Hc Hcs]. apply negb_true_iff in Hc.
    cbn [chain] in Hrun. unfold bind in Hrun.
    destruct (call c b) as [[] b1|e b1] eqn:Hcall; [|discriminate].
    destruct (call_appends c b b1 Hc Hcall) as (Hs1 & Ht1 & Hco1 & Hse1).
    destruct (IH b1 b' Hcs Hrun) as (Hs & Ht & Hco & Hse).
    cbn [expected_text].
    rewrite Hs, Ht, Hco, Hse, Hs1, Ht1, Hco1, Hse1, append_assoc. auto.
Qed.

Lemma element_on_fresh (v : string) :
  cssSelectorBuilder.element v fresh = Normal tt (started v).
Proof. reflexivity. Qed.

Lemma accepted_chain_aux (cs : list Call) (s : string) (b' : Builder) :
  no_element (tl cs) = true ->
  (chain cs ;; cssSelectorBuilder.stringify) fresh = Normal s b' ->
  s = expected_text cs /\ b' = fresh.
Proof.
  intros Hno Hrun.
  assert (Hgen : forall b0 t ds,
             combo b0 = [] -> comboSeparators b0 = [] ->
             SelectObj.seq (selectObj b0) = t ->
             no_element ds = true ->
             (chain ds ;; cssSelectorBuilder.stringify) b0 = Normal s b' ->
             s = t ++ expected_text ds /\ b' = fresh).
  { intros b0 t ds Hco Hse Hseq Hds H. unfold bind in H.
    destruct (chain ds b0) as [[] b1|e b1] eqn:Hch; [|discriminate].
    destruct (chain_appends ds b0 b1 Hds Hch) as (Hs1 & _ & Hco1 & Hse1).
    rewrite stringify_empty_combo in H by congruence.
    inversion H; subst. rewrite Hse1, Hse. auto. }
  destruct cs as [|c rest].
  - apply (Hgen fresh "" []); auto.
  - cbn [tl] in Hno. destruct (is_element c) eqn:Hc.
    + destruct c; try discriminate Hc.
      unfold bind in Hrun. cbn [chain call] in Hrun. unfold bind in Hrun.
      rewrite element_on_fresh in Hrun.
      apply (Hgen (started value) value rest); auto.
    + apply (Hgen fresh "" (c :: rest)); auto.
      unfold no_element. cbn [forallb]. rewrite Hc. exact Hno.
Qed.

(** X5. Whatever chain the builder accepts on a fresh builder, with
    [element] nowhere but in first place, [stringify()] returns its
    fragments with their prefixes in call order and leaves the builder
    fresh; this includes chains out of category order that no guard
    rejects. *)
Theorem accepted_chain_in_call_order (cs : list Call) (s : string) (b' : Builder) :
  no_element (tl cs) = true ->
  (chain cs ;; cssSelectorBuilder.stringify) fresh = Normal s b' ->
  s = expected_text cs /\ b' = fresh.
Proof. exact (accepted_chain_aux cs s b'). Qed.

Lemma accepted_chain_in_call_order_witness :
  no_element (tl [Element "p"; PseudoElement "after"; Class "x"; Attr "y"])
  = true
  /\ (chain [Element "p"; PseudoElement "after"; Class "x"; Attr "y"] ;;
      cssSelectorBuilder.stringify) fresh
     = Normal "p::after.x[y]" fresh
  /\ "p::after.x[y]"
     = expected_text [Element "p"; PseudoElement "after"; Class "x"; Attr "y"]
  /\ fresh = fresh.
Proof.
  split; [reflexivity|]. split; [reflexivity|].
  apply (accepted_chain_in_call_order
           [Element "p"; PseudoElement "after"; Class "x"; Attr "y"]
           "p::after.x[y]" fresh); reflexivity.
Defined.

(** ** What every session keeps *)

Lemma sound_fresh : sound fresh.
Proof. repeat split; cbn; [constructor | now exists ""]. Qed.

Lemma perform_sound (o : Op) (b : Builder) : sound b -> sound (perform o b).
Proof.
  destruct b as [[tag id cl at' pc pe sq pv] co se fm fi].
  intros (Hpv & Hco & rest & Hsq). cbn in Hpv, Hco, Hsq. subst pv.
  assert (Hpush : truthy sq = true ->
                  Forall (fun t => truthy t = true) (co ++ [sq])).
  { intros H. apply Forall_app. split; [exact Hco | now constructor]. }
  assert (Hgrow : forall u, exists rest', sq ++ u = tag ++ rest').
  { intros u. exists (rest ++ u)%string. now rewrite Hsq, append_assoc. }
  unfold perform.
  destruct o as [c|args|]; [destruct c| |];
    destruct sq as [|ch sq']; try destruct fm; try destruct fi;
    try destruct co as [|t co];
    run_body;
    repeat match goal with
           | |- context [if ?g then _ else _] => destruct g eqn:?
           end;
    unfold sound; cbn;
    repeat split; auto;
    first [ now exists ""
          | exists ""; now rewrite append_empty_r
          | now apply Hpush
          | apply Hgrow
          | now exists rest ].
Qed.

Lemma session_sound_aux (ops : list Op) :
  forall b, sound b -> sound (session ops b).
Proof.
  induction ops as [|o ops IH]; intros b Hb; [exact Hb|].
  cbn [session fold_left]. apply IH. now apply perform_sound.
Qed.

(** X6. In every state a fresh builder reaches through fragment calls,
    [combine] and [stringify], in any order and with every error caught,
    [selectObj.prevElem] is empty, no text stored in [combo] is empty, and
    the tag is a prefix of the sequence. *)
Theorem session_sound (ops : list Op) : sound (session ops fresh).
Proof. apply session_sound_aux, sound_fresh. Qed.

(** ** The id guard behind an element *)

Lemma length_append (s t : string) :
  String.length (s ++ t) = String.length s + String.length t.
Proof. induction s as [|ch s IH]; cbn; [reflexivity | now rewrite IH]. Qed.

Lemma truthy_length (s : string) : truthy s = true -> 0 < String.length s.
Proof. destruct s; cbn; [discriminate | lia]. Qed.

Lemma truthy_fragment (c : Call) : is_element c = false -> truthy (fragment c) = true.
Proof. destruct c; cbn; auto; discriminate. Qed.

Lemma truthy_expected_text (cs : list Call) :
  no_element cs = true -> cs <> [] -> truthy (expected_text cs) = true.
Proof.
  destruct cs as [|c cs]; [congruence|]. intros Hno _.
  unfold no_element in Hno. cbn [forallb] in Hno.
  apply andb_prop in Hno as [Hc _]. apply negb_true_iff in Hc.
  cbn [expected_text]. pose proof (truthy_fragment c Hc) as Hf.
  destruct (fragment c); [discriminate | reflexivity].
Qed.

Lemma element_sets_tag (b b' : Builder) (t : string) :
  cssSelectorBuilder.element t b = Normal tt b' ->
  SelectObj.tag (selectObj b') = t /\ SelectObj.seq (selectObj b') = t.
Proof.
  destruct b as [[tag id cl at' pc pe sq pv] co se fm fi].
  by_guards.
Qed.

Lemma id_behind_tag (b : Builder) (v : string) :
  truthy (SelectObj.tag (selectObj b)) = true ->
  String.length (SelectObj.tag (selectObj b))
  < String.length (SelectObj.seq (selectObj b)) ->
  cssSelectorBuilder.id v b
  = Thrown (if truthy (SelectObj.id (selectObj b))
            then errors.moreThanOne else errors.order)
      (after_genError b).
Proof.
  destruct b as [[tag id cl at' pc pe sq pv] co se fm fi].
  cbn [selectObj SelectObj.tag SelectObj.seq SelectObj.id].
  intros Ht Hlen. apply Nat.ltb_lt in Hlen.
  run_body.
  destruct (truthy id); [reflexivity|]. cbn -[Nat.ltb].
  destruct (truthy cl || truthy pe); [reflexivity|]. cbn -[Nat.ltb].
  now rewrite Ht, Hlen.
Qed.

(** X7. Behind an [element] call with a non-empty tag, [id] is accepted
    only as the very next call: once any other fragment was added and no
    [element] call followed, [id] throws - the duplicate error if an id is
    already there, the order error otherwise - and leaves a clean
    [selectObj]. *)
Theorem id_behind_element_throws (b0 b : Builder) (t v : string)
    (mid : list Call) :
  chain (Element t :: mid) b0 = Normal tt b ->
  truthy t = true -> mid <> [] -> no_element mid = true ->
  cssSelectorBuilder.id v b
  = Thrown (if truthy (SelectObj.id (selectObj b))
            then errors.moreThanOne else errors.order)
      (after_genError b).
Proof.
  intros Hrun Ht Hmid Hno.
  cbn [chain call] in Hrun. unfold bind in Hrun.
  destruct (cssSelectorBuilder.element t b0) as [[] b1|e b1] eqn:Hel;
    [|discriminate].
  destruct (element_sets_tag b0 b1 t Hel) as (Htag1 & Hseq1).
  destruct (chain_appends mid b1 b Hno Hrun) as (Hseq & Htag & _).
  apply id_behind_tag.
  - now rewrite Htag, Htag1.
  - rewrite Hseq, Htag, Hseq1, Htag1, length_append.
    pose proof (truthy_length _ (truthy_expected_text mid Hno Hmid)). lia.
Qed.

Lemma id_behind_element_throws_witness :
  chain (Element "a" :: [Attr "href"]) fresh
  = Normal tt (state_of (chain [Element "a"; Attr "href"] fresh))
  /\ truthy "a" = true /\ [Attr "href"] <> [] /\ no_element [Attr "href"] = true
  /\ cssSelectorBuilder.id "main"
       (state_of (chain [Element "a"; Attr "href"] fresh))
     = Thrown errors.order fresh.
Proof.
  split; [reflexivity|]. split; [reflexivity|]. split; [discriminate|].
  split; [reflexivity|].
  apply (id_behind_element_throws fresh
           (state_of (chain [Element "a"; Attr "href"] fresh)) "a" "main"
           [Attr "href"]); [reflexivity | reflexivity | discriminate | reflexivity].
Defined.

(** ** Which chains are accepted *)

Lemma ltb_length_append (t rest : string) :
  (String.length t <? String.length (t ++ rest))%nat = truthy rest.
Proof.
  rewrite length_append. destruct rest as [|ch rest]; cbn [String.length truthy].
  - apply Nat.ltb_ge. lia.
  - apply Nat.ltb_lt. lia.
Qed.

Lemma Seen_started (t : string) : Seen t [] (started t).
Proof.
  repeat split; cbn; auto. exists "". now rewrite append_empty_r.
Qed.

Lemma call_accepted_next (t : string) (seen : list Call) (c : Call) (b : Builder) :
  Seen t seen b -> is_element c = false ->
  returns_normally (call c b) = accepted_next t seen c.
Proof.
  destruct b as [[tag id cl at' pc pe sq pv] co se fm fi].
  intros (Ht & (rest & Hsq & Hrest) & Hid & Hcl & Hat & Hpc & Hpe) Hc.
  cbn in Ht, Hsq, Hid, Hcl, Hat, Hpc, Hpe. subst tag sq.
  unfold accepted_next.
  rewrite <- Hid, <- Hcl, <- Hat, <- Hpc, <- Hpe, <- Hrest,
    <- (ltb_length_append t rest).
  clear Hid Hcl Hat Hpc Hpe Hrest.
  destruct c; try discriminate Hc; run_body;
    repeat (match goal with
            | |- context [truthy ?x] => is_var x; destruct (truthy x)
            | |- context [(?n <? ?m)%nat] => destruct (n <? m)%nat
            | |- context [(?s =? "")%string] => destruct (s =? "")%string
            end; cbn -[Nat.ltb]);
    reflexivity.
Qed.

Lemma call_Seen (t : string) (seen : list Call) (c : Call) (b b' : Builder) :
  Seen t seen b -> is_element c = false ->
  call c b = Normal tt b' -> Seen t (c :: seen) b'.
Proof.
  destruct b as [[tag id cl at' pc pe sq pv] co se fm fi].
  intros (Ht & (rest & Hsq & Hrest) & Hid & Hcl & Hat & Hpc & Hpe) Hc.
  cbn in Ht, Hsq, Hid, Hcl, Hat, Hpc, Hpe.
  assert (Hgrow : forall u, truthy u = true ->
            exists rest', sq ++ u = t ++ rest' /\ truthy rest' = true).
  { intros u Hu. exists (rest ++ u)%string.
    rewrite Hsq, append_assoc. split; [reflexivity | now apply truthy_append_r]. }
  destruct c; try discriminate Hc; by_guards;
    unfold Seen; cbn; repeat split; auto;
    first [ apply Hgrow; reflexivity | unfold occurs in *; congruence ].
Qed.

Lemma chain_accepted_aux (t : string) (cs : list Call) :
  forall seen b,
    Seen t seen b -> no_element cs = true ->
    returns_normally (chain cs b) = accepted_after t seen cs.
Proof.
  induction cs as [|c cs IH]; intros seen b Hb Hno; [reflexivity|].
  unfold no_element in Hno. cbn [forallb] in Hno.
  apply andb_prop in Hno as [Hc Hcs]. apply negb_true_iff in Hc.
  cbn [chain accepted_after]. unfold bind.
  rewrite <- (call_accepted_next t seen c b Hb Hc).
  destruct (call c b) as [[] b1|e b1] eqn:Hcall; [|reflexivity].
  cbn [returns_normally andb].
  apply IH; [|exact Hcs]. exact (call_Seen t seen c b b1 Hb Hc Hcall).
Qed.

(** X8. Which chains a fresh builder accepts, with or without an opening
    [element(t)], when no further [element] call follows: [id] needs no id,
    class or pseudo-element before it and, behind a non-empty tag, no call
    at all; [class] needs no attribute before it, [attr] no pseudo-class,
    [pseudoClass] and [pseudoElement] no pseudo-element.  The chain returns
    exactly when every call meets its condition, and throws otherwise. *)
Theorem accepted_chains (t : string) (cs : list Call) :
  no_element cs = true ->
  returns_normally (chain cs fresh) = accepted_after "" [] cs
  /\ returns_normally (chain (Element t :: cs) fresh) = accepted_after t [] cs.
Proof.
  intros Hno. split.
  - exact (chain_accepted_aux "" cs [] fresh (Seen_started "") Hno).
  - cbn [chain call]. unfold bind. rewrite element_on_fresh.
    exact (chain_accepted_aux t cs [] (started t) (Seen_started t) Hno).
Qed.

Lemma accepted_chains_witness :
  no_element [PseudoClass "hover"; Id "main"; Class "x"] = true
  /\ returns_normally (chain [PseudoClass "hover"; Id "main"; Class "x"] fresh)
     = true
  /\ returns_normally
       (chain (Element "a" :: [PseudoClass "hover"; Id "main"; Class "x"]) fresh)
     = false.
Proof.
  split; [reflexivity|].
  exact (accepted_chains "a" [PseudoClass "hover"; Id "main"; Class "x"] eq_refl).
Defined.

(** ** Errors inside one chain *)

Lemma chain_thrown_split (cs : list Call) :
  forall b b' msg,
    chain cs b = Thrown msg b' ->
    exists pre c post b1,
      cs = (pre ++ c :: post)%list /\ chain pre b = Normal tt b1
      /\ call c b1 = Thrown msg b'.
Proof.
  induction cs as [|c cs IH]; intros b b' msg Hrun; [discriminate Hrun|].
  cbn [chain] in Hrun. unfold bind in Hrun.
  destruct (call c b) as [[] b1|e b1] eqn:Hcall.
  - destruct (IH b1 b' msg Hrun) as (pre & c' & post & b2 & -> & Hpre & Hthrow).
    exists (c :: pre), c', post, b2. repeat split; auto.
    cbn [chain]. unfold bind. now rewrite Hcall.
  - inversion Hrun; subst. now exists [], c, cs, b.
Qed.

Lemma chain_fresh_lists (pre : list Call) (b1 : Builder) :
  no_element (tl pre) = true -> chain pre fresh = Normal tt b1 ->
  combo b1 = [] /\ comboSeparators b1 = [].
Proof.
  intros Hno Hrun. destruct pre as [|p pre].
  - cbn in Hrun. unfold ret in Hrun. now inversion Hrun.
  - cbn [tl] in Hno. destruct (is_element p) eqn:Hp.
    + destruct p; try discriminate Hp.
      cbn [chain call] in Hrun. unfold bind in Hrun.
      rewrite element_on_fresh in Hrun.
      now destruct (chain_appends pre _ _ Hno Hrun) as (_ & _ & -> & ->).
    + assert (Hall : no_element (p :: pre) = true)
        by (unfold no_element; cbn [forallb]; now rewrite Hp).
      now destruct (chain_appends _ _ _ Hall Hrun) as (_ & _ & -> & ->).
Qed.

Lemma class_thrown (v : string) (b b' : Builder) (msg : string) :
  cssSelectorBuilder.class v b = Thrown msg b' ->
  msg = errors.order /\ b' = b /\ truthy (SelectObj.attr (selectObj b)) = true.
Proof.
  destruct b as [[tag id cl at' pc pe sq pv] co se fm fi]. by_guards.
  inversion H; subst. auto.
Qed.

Lemma no_element_app (l1 l2 : list Call) :
  no_element (l1 ++ l2) = true ->
  no_element l1 = true /\ no_element l2 = true.
Proof.
  unfold no_element. rewrite forallb_app. apply andb_prop.
Qed.

(** X9. When a chain on a fresh builder throws, with [element] nowhere but
    in first place, either the builder is fresh again, or the call that
    threw is [class] behind an attribute: then the message is the order
    error and the builder is left as the calls before it built it. *)
Theorem chain_error_state (cs : list Call) (msg : string) (b' : Builder) :
  no_element (tl cs) = true ->
  chain cs fresh = Thrown msg b' ->
  b' = fresh
  \/ (msg = errors.order
      /\ truthy (SelectObj.attr (selectObj b')) = true
      /\ exists pre v post,
           cs = (pre ++ Class v :: post)%list
           /\ chain pre fresh = Normal tt b').
Proof.
  intros Hno Hrun.
  destruct (chain_thrown_split cs fresh b' msg Hrun)
    as (pre & c & post & b1 & -> & Hpre & Hthrow).
  assert (Hsplit : no_element (tl pre) = true
                   /\ (pre = [] \/ is_element c = false)).
  { destruct pre as [|p pre]; cbn [tl app] in *.
    - split; [reflexivity | now left].
    - apply no_element_app in Hno as [Hp Hc]. split; [exact Hp|].
      right. unfold no_element in Hc. cbn [forallb] in Hc.
      apply andb_prop in Hc as [Hc _]. now apply negb_true_iff in Hc. }
  destruct Hsplit as [Hnopre Hc].
  destruct (chain_fresh_lists pre b1 Hnopre Hpre) as [Hco Hse].
  assert (Hclean : after_genError b1 = fresh)
    by (unfold after_genError; now rewrite Hco, Hse).
  destruct c as [v|v|v|v|v|v].
  - destruct Hc as [->|Hc]; [|discriminate Hc].
    cbn in Hpre. unfold ret in Hpre. inversion Hpre; subst b1.
    cbn [call] in Hthrow. rewrite element_on_fresh in Hthrow. discriminate.
  - left. destruct (thrown_state_aux _ _ _ _ Hthrow) as [_ ->]. exact Hclean.
  - right. cbn [call] in Hthrow.
    destruct (class_thrown v b1 b' msg Hthrow) as (-> & -> & Hattr).
    repeat split; auto. now exists pre, v, post.
  - left. destruct (thrown_state_aux _ _ _ _ Hthrow) as [_ ->]. exact Hclean.
  - left. destruct (thrown_state_aux _ _ _ _ Hthrow) as [_ ->]. exact Hclean.
  - left. destruct (thrown_state_aux _ _ _ _ Hthrow) as [_ ->]. exact Hclean.
Qed.

Lemma chain_error_state_witness :
  no_element (tl [Element "a"; PseudoClass "hover"; Attr "href"]) = true
  /\ chain [Element "a"; PseudoClass "hover"; Attr "href"] fresh
     = Thrown errors.order fresh
  /\ (fresh = fresh
      \/ (errors.order = errors.order
          /\ truthy (SelectObj.attr (selectObj fresh)) = true
          /\ exists pre v post,
               [Element "a"; PseudoClass "hover"; Attr "href"]
               = (pre ++ Class v :: post)%list
               /\ chain pre fresh = Normal tt fresh)).
Proof.
  split; [reflexivity|]. split; [reflexivity|].
  exact (chain_error_state [Element "a"; PseudoClass "hover"; Attr "href"]
           errors.order fresh eq_refl eq_refl).
Defined.

Lemma stringify_after_chain_aux (cs : list Call) :
  no_element (tl cs) = true ->
  state_of (cssSelectorBuilder.stringify (state_of (chain cs fresh))) = fresh.
Proof.
  intros Hno.
  assert (Hlists : combo (state_of (chain cs fresh)) = []
                   /\ comboSeparators (state_of (chain cs fresh)) = []).
  { destruct (chain cs fresh) as [[] b1|msg b1] eqn:Hrun; cbn [state_of].
    - exact (chain_fresh_lists cs b1 Hno Hrun).
    - destruct (chain_thrown_split cs fresh b1 msg Hrun)
        as (pre & c & post & b0 & Hcs & Hpre & Hthrow).
      assert (Hnopre : no_element (tl pre) = true).
      { subst cs. destruct pre as [|p pre]; [reflexivity|].
        cbn [tl app] in Hno. now apply no_element_app in Hno as [? _]. }
      destruct (chain_fresh_lists pre b0 Hnopre Hpre) as [Hco Hse].
      assert (Hc : pre = [] \/ is_element c = false).
      { subst cs. destruct pre as [|p pre]; [now left|]. right.
        cbn [tl app] in Hno. apply no_element_app in Hno as [_ Hc].
        unfold no_element in Hc. cbn [forallb] in Hc.
        apply andb_prop in Hc as [Hc _]. now apply negb_true_iff in Hc. }
      destruct (thrown_state_aux c b0 b1 msg Hthrow) as [_ Hst].
      destruct c; try (subst b1; now cbn).
      destruct Hc as [->|Hc]; [|discriminate Hc].
      cbn in Hpre. unfold ret in Hpre. inversion Hpre; subst b0.
      cbn [call] in Hthrow. rewrite element_on_fresh in Hthrow. discriminate. }
  destruct Hlists as [Hco Hse].
  rewrite stringify_empty_combo by exact Hco.
  cbn [state_of]. now rewrite Hse.
Qed.

(** X10. After one chain on a fresh builder, with [element] nowhere but in
    first place, [stringify()] leaves a fresh builder whether the chain was
    accepted or threw; a caller can clear a failed chain this way. *)
Theorem stringify_after_chain (cs : list Call) :
  no_element (tl cs) = true ->
  state_of (cssSelectorBuilder.stringify (state_of (chain cs fresh))) = fresh.
Proof. exact (stringify_after_chain_aux cs). Qed.

Lemma stringify_after_chain_witness :
  no_element (tl [Element "a"; Attr "href"; Class "x"]) = true
  /\ chain [Element "a"; Attr "href"; Class "x"] fresh
     = Thrown errors.order (state_of (chain [Element "a"; Attr "href"] fresh))
  /\ state_of
       (cssSelectorBuilder.stringify
          (state_of (chain [Element "a"; Attr "href"; Class "x"] fresh)))
     = fresh.
Proof.
  split; [reflexivity|]. split; [reflexivity|].
  apply (stringify_after_chain [Element "a"; Attr "href"; Class "x"]).
  reflexivity.
Defined.

(** ** Reuse *)

Lemma stringify_each_aux (es : list Selector) :
  forallb (operands_ok true) es = true ->
  stringify_each es fresh
  = Normal (map (fun e => interleave (texts e) (rev (combinators e))) es) fresh.
Proof.
  induction es as [|e es IH]; intros Hok; [reflexivity|].
  cbn [forallb] in Hok. apply andb_prop in Hok as [He Hes].
  cbn [stringify_each map]. unfold bind at 1.
  rewrite (stringify_operands_aux e He).
  unfold bind. rewrite (IH Hes). reflexivity.
Qed.

(** X11. The builder can be used again and again: any number of
    expressions whose chains it can tell apart, each ended by
    [stringify()], render one after the other on the same builder exactly
    as each would on a fresh one, and the builder is fresh at the end. *)
Theorem stringify_each_expression (es : list Selector) :
  forallb (operands_ok true) es = true ->
  stringify_each es fresh
  = Normal (map (fun e => interleave (texts e) (rev (combinators e))) es) fresh.
Proof. exact (stringify_each_aux es). Qed.

Lemma stringify_each_expression_witness :
  forallb (operands_ok true)
    [Simple [Element "div"; Id "main"];
     Combine (Simple [Element "p"; PseudoClass "focus"]) (JString ">")
       (Simple [Element "a"])] = true
  /\ stringify_each
       [Simple [Element "div"; Id "main"];
        Combine (Simple [Element "p"; PseudoClass "focus"]) (JString ">")
          (Simple [Element "a"])] fresh
     = Normal ["div#main"; "p:focus > a"] fresh.
Proof.
  split; [reflexivity|].
  apply (stringify_each_expression
           [Simple [Element "div"; Id "main"];
            Combine (Simple [Element "p"; PseudoClass "focus"]) (JString ">")
              (Simple [Element "a"])]).
  reflexivity.
Defined.
